(** * The adversarial training loop of [main.py], embedded in Rocq

    [main.py] is a script: it builds a generator [netG] and a discriminator
    [netD] (DCGAN, or the self-attention variant when [--sagan] is given),
    and then alternates, batch after batch, one Adam step on [netD] and one
    on [netG].  This file embeds lines 112-187 of the script (the loss
    criterion, the fixed noise, the two optimizers and the two nested
    [for] loops) as a program in a state monad, together with the weight
    initialiser of lines 92-98 and the log file of lines 44-48, and proves
    the properties the specification states about it.

    Conventions.
    - A tensor of floats is a list of real numbers ([vec]); a batch of
      images or of latent vectors is a list of such lists, one per sample
      ([batch]).  Arithmetic is the arithmetic of [R]; where a property
      depends on rounding, [Float32] rounds each operation to single
      precision.  Overflow and NaN are outside this model.
    - Autograd is modelled by what it does to the two sets of leaves the
      script owns, [netD.parameters()] and [netG.parameters()]: a tensor
      carries its value, its [requires_grad] flag and a backward closure
      [grad_fn] from a cotangent to the contributions [backward] adds to
      the [.grad] of each of the two sets ([None]: the set is not reached).
    - The classes of [dcgan.py] and [sagan.py], [torch.randn], the data
      loader and [optim.Adam] are not part of [main.py]; they are fields of
      an environment [torch_env] over which everything is parametrised. *)

From Stdlib Require Import Reals Lra Lia List String Ascii.
From Stdlib Require Import Decimal DecimalString DecimalNat.
From stdpp Require Import gmap strings.
Import ListNotations.

(** ** Tensors of reals *)

Definition vec : Type := list R.
Definition batch : Type := list vec.

Module Num.
Local Open Scope R_scope.

Definition Rsum (v : vec) : R := fold_right Rplus 0 v.

(** [t.mean()] *)
Definition mean (v : vec) : R := Rsum v / INR (length v).

(** [nn.ReLU()], and the derivative autograd uses for it (0 at 0). *)
Definition relu (x : R) : R := Rmax 0 x.
Definition relu' (x : R) : R := if Rlt_dec 0 x then 1 else 0.

Definition sigmoid (x : R) : R := / (1 + exp (- x)).

(** One element of [nn.BCEWithLogitsLoss()], on a raw score [x] with
    target [y], in the log-sum-exp form the library evaluates:
    [(1 - y) * x + m + log (exp (-m) + exp (-x - m))] with
    [m = max (-x) 0]. *)
Definition bce_with_logits (x y : R) : R :=
  let max_val := Rmax (- x) 0 in
  (1 - y) * x + max_val + ln (exp (- max_val) + exp (- x - max_val)).

(** The textbook binary cross-entropy of a probability [p] against a
    target [y], the way the specification writes [BCE]. *)
Definition BCE (p y : R) : R := - (y * ln p + (1 - y) * ln (1 - p)).

(** [torch.where(output > 0.5, 1., 0.).mean().item()] *)
Definition accuracy (output : vec) : R :=
  mean (map (fun x => if Rlt_dec (1 / 2) x then 1 else 0) output).

(** [torch.full((n,), v)] and [label.fill_(v)] *)
Definition full (n : nat) (v : R) : vec := repeat v n.
Definition fill_ (label : vec) (v : R) : vec := map (fun _ => v) label.

(** The cross-entropy of raw scores against the constant target [y], as
    the specification writes it: [BCE] of the sigmoid of each score,
    averaged. *)
Definition BCE_of_logits (y : R) (s : vec) : R :=
  mean (map (fun x => BCE (sigmoid x) y) s).

(** The three losses of each variant as functions of the score vector. *)
Definition hinge_real_loss (s : vec) : R := mean (map (fun x => relu (1 - x)) s).
Definition hinge_fake_loss (s : vec) : R := mean (map (fun x => relu (1 + x)) s).
Definition hinge_gen_loss (s : vec) : R := - mean s.
Definition criterion_value (s label : vec) : R := mean (zip_with bce_with_logits s label).

End Num.
Export Num.

(** ** Autograd *)

(** What one backward pass adds to [netD]'s and to [netG]'s parameter
    gradients, in this order. *)
Definition contribs : Type := (option vec * option vec)%type.

Definition vadd (a b : vec) : vec := zip_with Rplus a b.

(** [p.grad += c]; a gradient that is [None] is created from the
    contribution, and a leaf set that is not reached is left alone. *)
Definition accumulate (g c : option vec) : option vec :=
  match c with
  | None => g
  | Some c' => match g with None => Some c' | Some g' => Some (vadd g' c') end
  end.

Definition cadd (a b : contribs) : contribs :=
  (accumulate (fst a) (fst b), accumulate (snd a) (snd b)).

Record tensor (A : Type) : Type := Tensor {
  value : A;
  requires_grad : bool;
  grad_fn : A -> contribs
}.
Arguments Tensor {A} _ _ _.
Arguments value {A} _.
Arguments requires_grad {A} _.
Arguments grad_fn {A} _ _.

(** A tensor that is not the result of a tracked operation: the data
    batch, the noise, and what [detach()] returns. *)
Definition leaf {A : Type} (x : A) : tensor A :=
  Tensor x false (fun _ => (None, None)).

Definition detach {A : Type} (t : tensor A) : tensor A := leaf (value t).

Module Ops.
Local Open Scope R_scope.

(** An element-wise operation with derivative [f']. *)
Definition pointwise (f f' : R -> R) (t : tensor vec) : tensor vec :=
  Tensor (map f (value t)) (requires_grad t)
         (fun ct => grad_fn t (zip_with (fun x c => f' x * c) (value t) ct)).

(** [c - t], [c + t] and [nn.ReLU()(t)] *)
Definition rsub (c : R) (t : tensor vec) : tensor vec :=
  pointwise (fun x => c - x) (fun _ => -1) t.
Definition radd (c : R) (t : tensor vec) : tensor vec :=
  pointwise (fun x => c + x) (fun _ => 1) t.
Definition ReLU (t : tensor vec) : tensor vec := pointwise relu relu' t.

(** [t.mean()] *)
Definition tmean (t : tensor vec) : tensor R :=
  Tensor (mean (value t)) (requires_grad t)
         (fun c => grad_fn t (map (fun _ => c / INR (length (value t))) (value t))).

(** [- t] and [a + b] on scalars *)
Definition tneg (t : tensor R) : tensor R :=
  Tensor (- value t) (requires_grad t) (fun c => grad_fn t (- c)).
Definition tadd (a b : tensor R) : tensor R :=
  Tensor (value a + value b) (requires_grad a || requires_grad b)
         (fun c => cadd (grad_fn a c) (grad_fn b c)).

(** [criterion = nn.BCEWithLogitsLoss()] (line 112), mean reduction; the
    derivative in the score is [sigmoid x - y]. *)
Definition criterion (output : tensor vec) (label : vec) : tensor R :=
  Tensor (criterion_value (value output) label) (requires_grad output)
         (fun c => grad_fn output
                     (zip_with (fun x y => (sigmoid x - y) * (c / INR (length (value output))))
                               (value output) label)).

End Ops.
Export Ops.

(** ** The collaborators of the script *)

(** Modelled from the spec: [dcgan.py] and [sagan.py] are not among the
    sources.  The specification treats the two networks as opaque,
    differentiable, parameterised functions, and gives the discriminator
    one scalar score per sample.  A network is a function of its
    parameters, of its buffers (batch-norm statistics, spectral-norm
    vectors: a forward pass in training mode may rewrite them) and of the
    whole input batch, and its output has one entry per sample of the
    input: [D_score] and [G_sample] give the entry of the sample of a
    given index.  The self-attention classes return a triple
    [(out, attn1, attn2)]; the script keeps the first component only
    ([output, _, _ = output]), which is what [D_score] and [G_sample]
    stand for. *)
Record Discriminator : Type := {
  D_score : vec -> vec -> batch -> nat -> R;
  D_buffers : vec -> vec -> batch -> vec;
  D_vjp_params : vec -> vec -> batch -> vec -> vec;
  D_vjp_input : vec -> vec -> batch -> vec -> batch
}.

(** The score tensor of a batch: one score per sample. *)
Definition D_scores (D : Discriminator) (th b : vec) (x : batch) : vec :=
  map (D_score D th b x) (seq 0 (length x)).

Record Generator : Type := {
  G_sample : vec -> vec -> batch -> nat -> vec;
  G_buffers : vec -> vec -> batch -> vec;
  G_vjp_params : vec -> vec -> batch -> batch -> vec
}.

(** The image batch of a batch of latent vectors: one image per sample. *)
Definition G_forward (G : Generator) (th b : vec) (z : batch) : batch :=
  map (G_sample G th b z) (seq 0 (length z)).

(** The library and the data source.  [randn_sample rng n nz i] is sample
    [i] of [torch.randn(n, nz, 1, 1)] and [randn_state rng n nz] the state
    of the global generator after the call; [dataloader rng] is one pass of
    [enumerate(dataloader, 0)], whose shuffling draws on the same global
    generator; [Adam_step lr betas] is one [step()] of
    [optim.Adam(..., lr, betas)] on a parameter vector and its gradient;
    [set_to_none] is the default of [zero_grad] in the installed torch. *)
Record torch_env : Type := {
  RNG : Type;
  randn_sample : RNG -> nat -> nat -> nat -> vec;
  randn_state : RNG -> nat -> nat -> RNG;
  dataloader : RNG -> list (batch * vec) * RNG;
  dcgan_Generator : nat -> bool -> Generator;
  sagan_Generator : nat -> bool -> Generator;
  dcgan_Discriminator : bool -> Discriminator;
  sagan_Discriminator : bool -> Discriminator;
  adam_state : Type;
  adam_init : adam_state;
  Adam_step : R -> R * R -> adam_state -> vec -> vec -> vec * adam_state;
  set_to_none : bool
}.

(** [torch.randn(n, nz, 1, 1)]: [n] samples, and the generator's new state. *)
Definition randn (E : torch_env) (r : RNG E) (n nz : nat) : batch * RNG E :=
  (map (randn_sample E r n nz) (seq 0 n), randn_state E r n nz).

(** The command-line options the loop reads (lines 24-33). *)
Record options : Type := {
  nz : nat;
  niter : nat;
  outf : string;
  bigImage : bool;
  sagan : bool
}.

(** ** The state of the process *)

(** An [nn.Module] as the loop sees it. *)
Record module_state : Type := {
  parameters : vec;
  buffers : vec;
  grad : option vec
}.

(** The record of line 175: the nine values its message formats. *)
Record log_line : Type := {
  log_epoch : nat; log_niter : nat; log_i : nat; log_len : nat;
  Loss_D : R; Loss_G : R; log_D_x : R; log_D_G_z1 : R; log_D_G_z2 : R
}.

#[local] Set Warnings "-register-all".

(** What a file holds.  [LogFile before records] is a file the logging
    handler has appended [records] to, after what the file held when the
    first of them was written ([None]: there was no file). *)
Inductive artifact : Type :=
| ImageFile (images : batch) (normalize : bool)
| StateDict (params bufs : vec)
| LogFile (before : option artifact) (records : list log_line).

Inductive net_id : Type := NetD | NetG.

(** The tensor-level operations of a run, in the order they happen. *)
Inductive event : Type :=
| EvZeroGrad (n : net_id)
| EvForward (n : net_id) (input : batch) (input_requires_grad : bool)
| EvBackward (loss : R)
| EvStep (n : net_id)
| EvRandn (n nz : nat)
| EvSaveImage (path : string) (images : batch).

Record state (E : torch_env) : Type := State {
  netD : module_state;
  netG : module_state;
  optimizerD : adam_state E;
  optimizerG : adam_state E;
  rng : RNG E;
  fixed_noise : batch;
  files : gmap string artifact;
  log : list log_line;
  trace : list event
}.
Arguments State {E} _ _ _ _ _ _ _ _ _.
Arguments netD {E} _.
Arguments netG {E} _.
Arguments optimizerD {E} _.
Arguments optimizerG {E} _.
Arguments rng {E} _.
Arguments fixed_noise {E} _.
Arguments files {E} _.
Arguments log {E} _.
Arguments trace {E} _.

(** Classifiers of events, to count them. *)
Definition is_forward (n : net_id) (e : event) : bool :=
  match e, n with
  | EvForward NetD _ _, NetD => true
  | EvForward NetG _ _, NetG => true
  | _, _ => false
  end.
Definition is_step (n : net_id) (e : event) : bool :=
  match e, n with
  | EvStep NetD, NetD => true
  | EvStep NetG, NetG => true
  | _, _ => false
  end.
Definition is_zero_grad (n : net_id) (e : event) : bool :=
  match e, n with
  | EvZeroGrad NetD, NetD => true
  | EvZeroGrad NetG, NetG => true
  | _, _ => false
  end.
Definition is_backward (e : event) : bool :=
  match e with EvBackward _ => true | _ => false end.
Definition is_randn (e : event) : bool :=
  match e with EvRandn _ _ => true | _ => false end.

(** ** File names *)

(** ['%d' % n] *)
Definition fmt_d (n : nat) : string := NilEmpty.string_of_uint (Nat.to_uint n).

(** ['%03d' % n]: zeros on the left up to three characters. *)
Fixpoint zeros (k : nat) : string :=
  match k with O => EmptyString | S k' => String "0"%char (zeros k') end.
Definition fmt_03d (n : nat) : string :=
  let s := fmt_d n in zeros (3 - String.length s) +:+ s.

(** Reading a decimal numeral back ([int(s)]), used to tell file names
    apart. *)
Definition parse_d (s : string) : option nat :=
  option_map Nat.of_uint (NilEmpty.uint_of_string s).

Definition real_samples_path (outf : string) : string :=
  outf +:+ "/real_samples.png".
Definition fake_samples_path (outf : string) (epoch : nat) : string :=
  outf +:+ "/fake_samples_epoch_" +:+ fmt_03d epoch +:+ ".png".
Definition netG_path (outf : string) (epoch : nat) : string :=
  outf +:+ "/netG_epoch_" +:+ fmt_d epoch +:+ ".pth".
Definition netD_path (outf : string) (epoch : nat) : string :=
  outf +:+ "/netD_epoch_" +:+ fmt_d epoch +:+ ".pth".

(** The two files a snapshot at batch [i] of epoch [epoch] writes
    (lines 179 and 183). *)
Definition snapshot_paths (outf : string) (epoch i : nat) : string * string :=
  (real_samples_path outf, fake_samples_path outf epoch).

(** [os.path.join(a, b)] of [posixpath], on two components. *)
Definition ends_with_slash (a : string) : bool :=
  match String.get (String.length a - 1) a with
  | Some c => Ascii.eqb c "/"
  | None => false
  end.
Definition os_path_join (a b : string) : string :=
  if String.prefix "/" b then b
  else if (String.eqb a "" || ends_with_slash a)%bool then a +:+ b
  else a +:+ "/" +:+ b.

(** Line 45: the file of the logging handler.  File names are kept as the
    script writes them, relative to the working directory. *)
Definition stdout_log_path (outf : string) : string :=
  os_path_join outf "stdout.log".

(** The handler opens its file in append mode: a record goes after what
    the file holds. *)
Definition append_record (old : option artifact) (l : log_line) : artifact :=
  match old with
  | Some (LogFile before ls) => LogFile before (ls ++ [l])
  | _ => LogFile old [l]
  end.

(** [i % 100 == 0] *)
Definition snapshot_due (i : nat) : bool := Nat.eqb (i mod 100) 0.

(** ** The state monad of the script *)

Definition M (E : torch_env) (A : Type) : Type := state E -> A * state E.

Definition ret {E : torch_env} {A : Type} (a : A) : M E A := fun s => (a, s).

Definition bind {E : torch_env} {A B : Type} (m : M E A) (k : A -> M E B) : M E B :=
  fun s => let r := m s in k (fst r) (snd r).

Notation "'do' x <- m ;; k" := (bind m (fun x => k))
  (at level 10, x name, m at level 99, k at level 200).

(** The final state and the value of a computation. *)
Definition exec {E : torch_env} {A : Type} (m : M E A) (s : state E) : state E := snd (m s).
Definition eval {E : torch_env} {A : Type} (m : M E A) (s : state E) : A := fst (m s).

Definition set_netD {E : torch_env} (m : module_state) (s : state E) : state E :=
  State m (netG s) (optimizerD s) (optimizerG s) (rng s) (fixed_noise s)
        (files s) (log s) (trace s).
Definition set_netG {E : torch_env} (m : module_state) (s : state E) : state E :=
  State (netD s) m (optimizerD s) (optimizerG s) (rng s) (fixed_noise s)
        (files s) (log s) (trace s).
Definition set_optimizerD {E : torch_env} (o : adam_state E) (s : state E) : state E :=
  State (netD s) (netG s) o (optimizerG s) (rng s) (fixed_noise s)
        (files s) (log s) (trace s).
Definition set_optimizerG {E : torch_env} (o : adam_state E) (s : state E) : state E :=
  State (netD s) (netG s) (optimizerD s) o (rng s) (fixed_noise s)
        (files s) (log s) (trace s).
Definition set_rng {E : torch_env} (r : RNG E) (s : state E) : state E :=
  State (netD s) (netG s) (optimizerD s) (optimizerG s) r (fixed_noise s)
        (files s) (log s) (trace s).
Definition set_fixed_noise {E : torch_env} (z : batch) (s : state E) : state E :=
  State (netD s) (netG s) (optimizerD s) (optimizerG s) (rng s) z
        (files s) (log s) (trace s).
Definition set_files {E : torch_env} (f : gmap string artifact) (s : state E) : state E :=
  State (netD s) (netG s) (optimizerD s) (optimizerG s) (rng s) (fixed_noise s)
        f (log s) (trace s).
Definition set_log {E : torch_env} (l : list log_line) (s : state E) : state E :=
  State (netD s) (netG s) (optimizerD s) (optimizerG s) (rng s) (fixed_noise s)
        (files s) l (trace s).
Definition emit {E : torch_env} (e : event) (s : state E) : state E :=
  State (netD s) (netG s) (optimizerD s) (optimizerG s) (rng s) (fixed_noise s)
        (files s) (log s) (trace s ++ [e]).

Definition set_buffers (b : vec) (m : module_state) : module_state :=
  {| parameters := parameters m; buffers := b; grad := grad m |}.
Definition set_grad (g : option vec) (m : module_state) : module_state :=
  {| parameters := parameters m; buffers := buffers m; grad := g |}.

(** The local variables each part of the loop body leaves behind. *)
Record real_locals : Type := {
  label_real : vec;
  errD_real : tensor R;
  D_x : R
}.
Record fake_locals : Type := {
  noise : batch;
  fake : tensor batch;
  label_fake : vec;
  errD_fake : tensor R;
  D_G_z1 : R
}.
Record gen_locals : Type := {
  label_gen : vec;
  errG : tensor R;
  D_G_z2 : R
}.
Record body_locals : Type := {
  loc_real : real_locals;
  loc_fake : fake_locals;
  errD : tensor R;
  loc_gen : gen_locals
}.

(** Lines 119-120: the learning rates and the momentum coefficients. *)
Definition lrD : R := (4 / 10000)%R.
Definition lrG : R := (1 / 10000)%R.
Definition betas : R * R := (0, 9 / 10)%R.

Section Script.

Variable E : torch_env.
Variable opt : options.
(** Lines 115-116 set these to 1 and 0; [main] below does the same. *)
Variables real_label fake_label : R.

(** Lines 101 and 107: which classes the two networks are. *)
Definition netG_class : Generator :=
  if sagan opt then sagan_Generator E (nz opt) (bigImage opt)
  else dcgan_Generator E (nz opt) (bigImage opt).
Definition netD_class : Discriminator :=
  if sagan opt then sagan_Discriminator E (bigImage opt)
  else dcgan_Discriminator E (bigImage opt).

(** The scores the discriminator gives a batch, as it stands in [s]. *)
Definition netD_now (s : state E) (x : batch) : vec :=
  D_scores netD_class (parameters (netD s)) (buffers (netD s)) x.

(** [net.zero_grad()] *)
Definition zero_grad (m : module_state) : module_state :=
  set_grad (if set_to_none E then None
            else option_map (map (fun _ => 0%R)) (grad m)) m.

Definition netD_zero_grad : M E unit :=
  fun s => (tt, emit (EvZeroGrad NetD) (set_netD (zero_grad (netD s)) s)).
Definition netG_zero_grad : M E unit :=
  fun s => (tt, emit (EvZeroGrad NetG) (set_netG (zero_grad (netG s)) s)).

(** [netD(x)]: the scores of the samples of [x], tracked by autograd.
    The backward closure reaches [netD]'s parameters, and whatever the
    input reaches. *)
Definition netD_call (x : tensor batch) : M E (tensor vec) :=
  fun s =>
    let th := parameters (netD s) in
    let b := buffers (netD s) in
    let out :=
      Tensor (D_scores netD_class th b (value x)) true
             (fun ct => cadd (Some (D_vjp_params netD_class th b (value x) ct), None)
                             (grad_fn x (D_vjp_input netD_class th b (value x) ct))) in
    (out, emit (EvForward NetD (value x) (requires_grad x))
               (set_netD (set_buffers (D_buffers netD_class th b (value x)) (netD s)) s)).

(** [netG(z)] on a batch of latent vectors, which needs no gradient. *)
Definition netG_call (z : batch) : M E (tensor batch) :=
  fun s =>
    let th := parameters (netG s) in
    let b := buffers (netG s) in
    let out :=
      Tensor (G_forward netG_class th b z) true
             (fun ct => (None, Some (G_vjp_params netG_class th b z ct))) in
    (out, emit (EvForward NetG z false)
               (set_netG (set_buffers (G_buffers netG_class th b z) (netG s)) s)).

(** [loss.backward()] *)
Definition backward (loss : tensor R) : M E unit :=
  fun s =>
    let c := grad_fn loss 1%R in
    (tt, emit (EvBackward (value loss))
              (set_netG (set_grad (accumulate (grad (netG s)) (snd c)) (netG s))
                 (set_netD (set_grad (accumulate (grad (netD s)) (fst c)) (netD s)) s))).

(** [optimizer.step()]: Adam leaves a parameter without gradient alone. *)
Definition step (lr : R) (o : adam_state E) (m : module_state)
  : module_state * adam_state E :=
  match grad m with
  | None => (m, o)
  | Some g =>
      let r := Adam_step E lr betas o (parameters m) g in
      ({| parameters := fst r; buffers := buffers m; grad := grad m |}, snd r)
  end.

Definition optimizerD_step : M E unit :=
  fun s =>
    let r := step lrD (optimizerD s) (netD s) in
    (tt, emit (EvStep NetD) (set_optimizerD (snd r) (set_netD (fst r) s))).
Definition optimizerG_step : M E unit :=
  fun s =>
    let r := step lrG (optimizerG s) (netG s) in
    (tt, emit (EvStep NetG) (set_optimizerG (snd r) (set_netG (fst r) s))).

(** [torch.randn(n, nz, 1, 1)] *)
Definition torch_randn (n : nat) : M E batch :=
  fun s =>
    let r := randn E (rng s) n (nz opt) in
    (fst r, emit (EvRandn n (nz opt)) (set_rng (snd r) s)).

(** [vutils.save_image(imgs, path, normalize=True)] *)
Definition save_image (imgs : batch) (path : string) : M E unit :=
  fun s => (tt, emit (EvSaveImage path imgs)
                     (set_files (<[path := ImageFile imgs true]> (files s)) s)).

(** [torch.save(net.state_dict(), path)] *)
Definition torch_save (n : net_id) (path : string) : M E unit :=
  fun s =>
    let m := match n with NetD => netD s | NetG => netG s end in
    (tt, set_files (<[path := StateDict (parameters m) (buffers m)]> (files s)) s).

(** [logging.info(...)] (line 175).  The root logger has one handler, the
    file handler [logging.basicConfig] gave it at lines 44-48: the record
    is appended to [stdout.log] in the output folder.  [log] keeps the
    records the logger was handed, in order. *)
Definition logging_info (l : log_line) : M E unit :=
  fun s =>
    let path := stdout_log_path (outf opt) in
    (tt, set_files (<[path := append_record (files s !! path) l]> (files s))
           (set_log (log s ++ [l]) s)).

Definition get_fixed_noise : M E batch := fun s => (fixed_noise s, s).

(** One pass of the data loader. *)
Definition iter_dataloader : M E (list (batch * vec)) :=
  fun s => let r := dataloader E (rng s) in (fst r, set_rng (snd r) s).

(** *** The body of the inner loop *)

(** Lines 128-141, "train with real". *)
Definition train_with_real (data : batch * vec) : M E real_locals :=
  do _ <- netD_zero_grad ;;
  let real_cpu := fst data in
  let batch_size := length real_cpu in
  let label := full batch_size real_label in
  do output <- netD_call (leaf real_cpu) ;;
  let errD_real :=
    if sagan opt then tmean (ReLU (rsub 1 output))
    else criterion output label in
  do _ <- backward errD_real ;;
  let D_x := accuracy (value output) in
  ret {| label_real := label; errD_real := errD_real; D_x := D_x |}.

(** Lines 144-156, "train with fake". *)
Definition train_with_fake (batch_size : nat) (label : vec) : M E fake_locals :=
  do noise <- torch_randn batch_size ;;
  do fake <- netG_call noise ;;
  let label := fill_ label fake_label in
  do output <- netD_call (detach fake) ;;
  let errD_fake :=
    if sagan opt then tmean (ReLU (radd 1 output))
    else criterion output label in
  do _ <- backward errD_fake ;;
  let D_G_z1 := accuracy (value output) in
  ret {| noise := noise; fake := fake; label_fake := label;
         errD_fake := errD_fake; D_G_z1 := D_G_z1 |}.

(** Lines 128-156: the two backward passes of the discriminator update. *)
Definition accumulate_D (data : batch * vec) : M E (real_locals * fake_locals) :=
  do r <- train_with_real data ;;
  do f <- train_with_fake (length (fst data)) (label_real r) ;;
  ret (r, f).

(** Lines 128-158, "(1) Update D network". *)
Definition update_D_network (data : batch * vec)
  : M E (real_locals * fake_locals * tensor R) :=
  do rf <- accumulate_D data ;;
  let errD := tadd (errD_real (fst rf)) (errD_fake (snd rf)) in
  do _ <- optimizerD_step ;;
  ret (rf, errD).

(** Lines 163-173, "(2) Update G network". *)
Definition update_G_network (fake : tensor batch) (label : vec) : M E gen_locals :=
  do _ <- netG_zero_grad ;;
  let label := fill_ label real_label in
  do output <- netD_call fake ;;
  let errG :=
    if sagan opt then tneg (tmean output)
    else criterion output label in
  do _ <- backward errG ;;
  let D_G_z2 := accuracy (value output) in
  do _ <- optimizerG_step ;;
  ret {| label_gen := label; errG := errG; D_G_z2 := D_G_z2 |}.

(** Lines 178-183: the snapshot of every hundredth batch. *)
Definition snapshot (epoch i : nat) (real_cpu : batch) : M E unit :=
  if snapshot_due i then
    do _ <- save_image (firstn 64 real_cpu) (real_samples_path (outf opt)) ;;
    do z <- get_fixed_noise ;;
    do fake <- netG_call z ;;
    save_image (value (detach fake)) (fake_samples_path (outf opt) epoch)
  else ret tt.

(** Lines 128-183: one batch. [len] is [len(dataloader)]. *)
Definition loop_body (epoch len i : nat) (data : batch * vec) : M E body_locals :=
  do d <- update_D_network data ;;
  let r := fst (fst d) in
  let f := snd (fst d) in
  let errD := snd d in
  do g <- update_G_network (fake f) (label_fake f) ;;
  do _ <- logging_info
       {| log_epoch := epoch; log_niter := niter opt; log_i := i; log_len := len;
          Loss_D := value errD; Loss_G := value (errG g);
          log_D_x := D_x r; log_D_G_z1 := D_G_z1 f; log_D_G_z2 := D_G_z2 g |} ;;
  do _ <- snapshot epoch i (fst data) ;;
  ret {| loc_real := r; loc_fake := f; errD := errD; loc_gen := g |}.

(** *** The two loops *)

(** [for i, data in enumerate(dataloader, 0)], from index [i] on. *)
Fixpoint for_batches (epoch len i : nat) (ds : list (batch * vec)) : M E unit :=
  match ds with
  | [] => ret tt
  | d :: ds' =>
      do _ <- loop_body epoch len i d ;;
      for_batches epoch len (S i) ds'
  end.

(** Lines 123-187: one epoch and its two checkpoints.  [len(dataloader)]
    is the number of batches a pass yields. *)
Definition epoch_body (epoch : nat) : M E unit :=
  do ds <- iter_dataloader ;;
  do _ <- for_batches epoch (length ds) 0 ds ;;
  do _ <- torch_save NetG (netG_path (outf opt) epoch) ;;
  torch_save NetD (netD_path (outf opt) epoch).

(** [for epoch in range(opt.niter)] over the given epoch numbers. *)
Fixpoint for_epochs (epochs : list nat) : M E unit :=
  match epochs with
  | [] => ret tt
  | e :: es => do _ <- epoch_body e ;; for_epochs es
  end.

Definition training_loop : M E unit := for_epochs (seq 0 (niter opt)).

(** Lines 114-120: the fixed noise and the two fresh optimizers. *)
Definition setup : M E unit :=
  do z <- torch_randn 64 ;;
  fun s => (tt, set_optimizerG (adam_init E)
                  (set_optimizerD (adam_init E) (set_fixed_noise z s))).

(** Lines 112-187. *)
Definition script : M E unit :=
  do _ <- setup ;; training_loop.

End Script.

(** Lines 115-116. *)
Definition main (E : torch_env) (opt : options) : M E unit :=
  script E opt 1%R 0%R.

(** The events a computation adds to the trace of [s]. *)
Definition new_events {E : torch_env} {A : Type} (m : M E A) (s : state E) : list event :=
  skipn (length (trace s)) (trace (exec m s)).

(** [m], run from [s], appends exactly [evs] to the trace. *)
Definition emits {E : torch_env} {A : Type} (m : M E A) (s : state E)
    (evs : list event) : Prop :=
  trace (exec m s) = trace s ++ evs.

(** The events of a snapshot at batch [i] (lines 178-183). *)
Definition snapshot_events (G : Generator) (outf : string) (epoch i : nat)
    (real_cpu : batch) (netG_now : module_state) (z : batch) : list event :=
  if snapshot_due i then
    [EvSaveImage (real_samples_path outf) (firstn 64 real_cpu);
     EvForward NetG z false;
     EvSaveImage (fake_samples_path outf epoch)
                 (G_forward G (parameters netG_now) (buffers netG_now) z)]
  else [].

(** The tensor-level events of one batch before its snapshot, in terms of
    the local variables the batch leaves behind. *)
Definition batch_events (nz : nat) (real_cpu : batch) (L : body_locals) : list event :=
  [EvZeroGrad NetD;
   EvForward NetD real_cpu false;
   EvBackward (value (errD_real (loc_real L)));
   EvRandn (length real_cpu) nz;
   EvForward NetG (noise (loc_fake L)) false;
   EvForward NetD (value (fake (loc_fake L))) false;
   EvBackward (value (errD_fake (loc_fake L)));
   EvStep NetD;
   EvZeroGrad NetG;
   EvForward NetD (value (fake (loc_fake L))) true;
   EvBackward (value (errG (loc_gen L)));
   EvStep NetG].

(** ** Properties as the specification words them *)

(** A tensor whose backward pass cannot reach the generator. *)
Definition isolated_from_G {A : Type} (t : tensor A) : Prop :=
  forall ct, snd (grad_fn t ct) = None.

(** "Distinctly named artifact files keyed by epoch/batch": two different
    snapshot points of a run never write to the same file. *)
Definition distinctly_named (outf : string) : Prop :=
  forall e1 i1 e2 i2,
    snapshot_due i1 = true -> snapshot_due i2 = true ->
    (e1, i1) <> (e2, i2) ->
    fst (snapshot_paths outf e1 i1) <> fst (snapshot_paths outf e2 i2) /\
    snd (snapshot_paths outf e1 i1) <> snd (snapshot_paths outf e2 i2).

(** An image file rendered from the generator's output on the latent
    batch [z], under some parameters and buffers. *)
Definition generated_from (G : Generator) (z : batch) (images : batch) : Prop :=
  exists th b, images = G_forward G th b z.

(** Every image the loop saved is either the grid of real samples or was
    generated from [z]. *)
Definition snapshots_from (G : Generator) (outf : string) (z : batch) (e : event) : Prop :=
  match e with
  | EvSaveImage p imgs => p = real_samples_path outf \/ generated_from G z imgs
  | _ => True
  end.

(** [m] never assigns the fixed noise, and every event it adds to the
    trace satisfies [P z], [z] being the fixed noise. *)
Definition keeps_fixed_noise {E : torch_env} {A : Type}
    (P : batch -> event -> Prop) (m : M E A) : Prop :=
  forall s : state E,
    fixed_noise (exec m s) = fixed_noise s /\
    exists evs, emits m s evs /\ Forall (P (fixed_noise s)) evs.

(** ** A small concrete environment

    One-pixel images, a one-parameter linear discriminator and generator,
    a counter for the random generator and plain gradient descent for the
    optimizer: enough to run the definitions on. *)
Module Toy.
Local Open Scope R_scope.

Definition px (x : vec) : R := hd 0 x.

Definition D : Discriminator := {|
  D_score := fun th _ x i => px th * px (nth i x []);
  D_buffers := fun _ b _ => b;
  D_vjp_params := fun _ _ x ct => [Rsum (zip_with (fun c v => c * px v) ct x)];
  D_vjp_input := fun th _ _ ct => map (fun c => [c * px th]) ct
|}.

Definition G : Generator := {|
  G_sample := fun th _ z i => [px th * px (nth i z [])];
  G_buffers := fun _ b _ => b;
  G_vjp_params := fun _ _ z ct => [Rsum (zip_with (fun c v => px c * px v) ct z)]
|}.

Definition env : torch_env := {|
  RNG := nat;
  randn_sample := fun r _ nz _ => repeat (INR (S r)) nz;
  randn_state := fun r _ _ => S r;
  dataloader := fun r => ([([[1]; [-1]], [0; 0])], S r);
  dcgan_Generator := fun _ _ => G;
  sagan_Generator := fun _ _ => G;
  dcgan_Discriminator := fun _ => D;
  sagan_Discriminator := fun _ => D;
  adam_state := nat;
  adam_init := O;
  Adam_step := fun lr _ t th g => (zip_with (fun p d => p - lr * d) th g, S t);
  set_to_none := true
|}.

Definition opts (hinge : bool) : options :=
  {| nz := 1; niter := 1; outf := "out"; bigImage := false; sagan := hinge |}.

Definition net0 (w : R) : module_state :=
  {| parameters := [w]; buffers := []; grad := None |}.

Definition s0 : state env :=
  @State env (net0 1) (net0 2) O O O [] ∅ [] [].

Definition batch0 : batch * vec := ([[1]; [-1]], [0; 0]).

End Toy.

(** ** Weight initialisation (lines 92-98, 103 and 109) *)

(** What [weights_init] reads and writes of a layer: the name of its class
    and its [weight] and [bias] tensors, [None] when the layer has no such
    tensor (the initialisers of [torch.nn.init] raise on it). *)
Record nn_module : Type := {
  class_name : string;
  weight : option vec;
  bias : option vec
}.

(** A network as [nn.Module.apply] walks it: a module and its children. *)
Inductive nn_tree : Type :=
| Node (m : nn_module) (children : list nn_tree).

(** [s.find(sub)]: the lowest index at which [sub] occurs in [s], or -1. *)
Definition str_find (s sub : string) : Z :=
  match String.index 0 sub s with
  | Some k => Z.of_nat k
  | None => (-1)%Z
  end.

(** [sub] occurs in [s] at index [k]. *)
Definition occurs_at (sub s : string) (k : nat) : Prop :=
  String.substring k (String.length sub) s = sub.

(** [torch.nn.init.zeros_(t)] *)
Definition zeros_ (t : vec) : vec := map (fun _ => 0%R) t.

Section WeightsInit.

Variable G : Type.
(** [normal_sample g mean std n i] is entry [i] of the [n] values
    [torch.nn.init.normal_(t, mean, std)] draws for a tensor [t] of [n]
    entries, and [normal_state g mean std n] the generator's state after
    the call. *)
Variable normal_sample : G -> R -> R -> nat -> nat -> R.
Variable normal_state : G -> R -> R -> nat -> G.

(** [torch.nn.init.normal_(t, mean, std)] *)
Definition normal_ (g : G) (t : vec) (mean std : R) : vec * G :=
  (map (normal_sample g mean std (length t)) (seq 0 (length t)),
   normal_state g mean std (length t)).

(** Lines 92-98; [None] when an initialiser raises. *)
Definition weights_init (m : nn_module) (g : G) : option (nn_module * G) :=
  let classname := class_name m in
  if negb (Z.eqb (str_find classname "Conv") (-1)) then
    match weight m with
    | None => None
    | Some w =>
        let r := normal_ g w 0 (2 / 100) in
        Some ({| class_name := classname; weight := Some (fst r); bias := bias m |},
              snd r)
    end
  else if negb (Z.eqb (str_find classname "BatchNorm") (-1)) then
    match weight m with
    | None => None
    | Some w =>
        let r := normal_ g w 1 (2 / 100) in
        match bias m with
        | None => None
        | Some b =>
            Some ({| class_name := classname; weight := Some (fst r);
                     bias := Some (zeros_ b) |}, snd r)
        end
    end
  else Some (m, g).

(** The children of a module, visited in order by [ap], the random
    generator threaded through. *)
Fixpoint apply_children (ap : nn_tree -> G -> option (nn_tree * G))
    (cs : list nn_tree) (g : G) : option (list nn_tree * G) :=
  match cs with
  | [] => Some ([], g)
  | c :: cs' =>
      match ap c g with
      | None => None
      | Some (c', g') =>
          match apply_children ap cs' g' with
          | None => None
          | Some (cs'', g'') => Some (c' :: cs'', g'')
          end
      end
  end.

(** [net.apply(fn)]: [fn] on every child, in order, then on the module
    itself. *)
Fixpoint module_apply (fn : nn_module -> G -> option (nn_module * G)) (t : nn_tree)
    (g : G) : option (nn_tree * G) :=
  match t with
  | Node m children =>
      match apply_children (module_apply fn) children g with
      | None => None
      | Some (children', g') =>
          match fn m g' with
          | None => None
          | Some (m', g'') => Some (Node m' children', g'')
          end
      end
  end.

End WeightsInit.

(** The class names of a network, in the order [module_apply] visits
    them. *)
Fixpoint class_names (t : nn_tree) : list string :=
  match t with
  | Node m children => flat_map class_names children ++ [class_name m]
  end.

(** A class name [weights_init] does not react to. *)
Definition plain_class (c : string) : Prop :=
  (forall k, ~ occurs_at "Conv" c k) /\ (forall k, ~ occurs_at "BatchNorm" c k).

(** ** Artifacts and counts of a run *)

(** The files a run over the epochs [es] may write. *)
Definition artifact_path (outf : string) (es : list nat) (p : string) : Prop :=
  p = real_samples_path outf \/
  exists e, In e es /\
    (p = fake_samples_path outf e \/ p = netG_path outf e \/ p = netD_path outf e).

(** The files a run over the epochs [es] may write: its artifacts and the
    file of the logging handler. *)
Definition written_path (outf : string) (es : list nat) (p : string) : Prop :=
  p = stdout_log_path outf \/ artifact_path outf es p.



Definition is_save (e : event) : bool :=
  match e with EvSaveImage _ _ => true | _ => false end.

(** The first four fields of a log line: [epoch], [niter], [i] and
    [len(dataloader)]. *)
Definition log_position (l : log_line) : nat * nat * nat * nat :=
  (log_epoch l, log_niter l, log_i l, log_len l).

(** Running [m] from any state appends events of which exactly [c]
    satisfy [f]. *)
Definition counts {E : torch_env} {A : Type} (f : event -> bool) (c : nat)
    (m : M E A) : Prop :=
  forall s : state E,
    exists evs, emits m s evs /\ length (List.filter f evs) = c.

(** Between [s] and [s'] only the files named in [W] may have changed. *)
Definition only_writes {E : torch_env} (W : string -> Prop) (s s' : state E) : Prop :=
  forall p, ~ W p -> files s' !! p = files s !! p.

(** Between [s] and [s'] no file has disappeared. *)
Definition keeps_files {E : torch_env} (s s' : state E) : Prop :=
  forall p, is_Some (files s !! p) -> is_Some (files s' !! p).

(** Running [m] relates every state to its final state by [R]. *)
Definition establishes {E : torch_env} {A : Type}
    (R : state E -> state E -> Prop) (m : M E A) : Prop :=
  forall s : state E, R s (exec m s).

(** ** A small initialiser

    A random generator for [weights_init] that counts the numbers drawn
    and returns the mean. *)
Module ToyEdge.

Definition normal_sample (g : nat) (mean std : R) (n i : nat) : R := mean.
Definition normal_state (g : nat) (mean std : R) (n : nat) : nat := g + n.

Definition layer (name : string) (w b : option vec) : nn_module :=
  {| class_name := name; weight := w; bias := b |}.

End ToyEdge.

(** ** Single precision

    The tensors of the script are [torch.float32].  [round] is rounding
    to the nearest binary32 number, ties to even; an operation of the
    library is the operation on the reals followed by [round].  Overflow
    to infinity and NaN are outside the model. *)
Module Float32.
Local Open Scope R_scope.

(** The exponent of the unit in the last place of [x]: 24 significant
    bits, and no unit below [2^-149]. *)
Definition ulp_exp (x : R) : Z :=
  Z.max (Zfloor (ln (Rabs x) / ln 2) - 23) (-149).

(** The nearest integer, ties to the even one. *)
Definition nearest_even (x : R) : Z :=
  let f := Zfloor x in
  if Rlt_dec (x - IZR f) (1 / 2) then f
  else if Rlt_dec (1 / 2) (x - IZR f) then (f + 1)%Z
  else if Z.even f then f else (f + 1)%Z.

(** Rounding to the nearest binary32 number: sign and magnitude. *)
Definition round (x : R) : R :=
  let e := ulp_exp x in
  (if Rlt_dec x 0 then -1 else 1)
  * (IZR (nearest_even (Rabs x * powerRZ 2 (- e))) * powerRZ 2 e).

Definition fadd (x y : R) : R := round (x + y).
Definition fsub (x y : R) : R := round (x - y).
Definition fmul (x y : R) : R := round (x * y).
Definition fdiv (x y : R) : R := round (x / y).
Definition fexp (x : R) : R := round (exp x).
Definition flog (x : R) : R := round (ln x).

(** [bce_with_logits], each operation rounded; negation and the maximum
    of two numbers are exact. *)
Definition bce_with_logits (x y : R) : R :=
  let max_val := Rmax (- x) 0 in
  fadd (fadd (fmul (fsub 1 y) x) max_val)
       (flog (fadd (fexp (- max_val)) (fexp (fsub (- x) max_val)))).

Definition mean (v : vec) : R :=
  fdiv (fold_left fadd v 0) (round (INR (length v))).

Definition criterion_value (s label : vec) : R :=
  mean (zip_with bce_with_logits s label).

End Float32.

(** "Strictly decreasing in the raw logit score", of a loss on a batch
    of scores against the target 1, the scores ranging over [score]. *)
Definition strictly_decreasing_in_score (loss : vec -> vec -> R)
    (score : R -> Prop) : Prop :=
  forall s s' : vec,
    Forall score s -> Forall score s' -> Forall2 Rlt s s' -> s <> [] ->
    (loss s' (full (length s') 1) < loss s (full (length s) 1))%R.

(** * Properties *)

(** ** The loss functions *)

Module LossFacts.
Local Open Scope R_scope.

Lemma relu_mono (x y : R) : x <= y -> relu x <= relu y.
Proof.
  intros H. unfold relu. apply Rle_max_compat_l, H.
Qed.

Lemma relu_nonpos (x : R) : x <= 0 -> relu x = 0.
Proof.
  intros H. unfold relu. apply Rmax_left, H.
Qed.

Lemma Rsum_mono (a b : vec) : Forall2 Rle a b -> Rsum a <= Rsum b.
Proof.
  induction 1 as [|x y a b Hxy _ IH]; simpl; lra.
Qed.

Lemma Rsum_strict (a b : vec) :
  Forall2 Rlt a b -> a <> [] -> Rsum a < Rsum b.
Proof.
  induction 1 as [|x y a b Hxy Hab IH]; intros Hne; [congruence|].
  simpl. destruct Hab as [|x' y' a' b' Hx' Hab'].
  - simpl. lra.
  - assert (Rsum (x' :: a') < Rsum (y' :: b')) by (apply IH; discriminate).
    lra.
Qed.

Lemma Rsum_zero (a : vec) : Forall (fun x => x = 0) a -> Rsum a = 0.
Proof.
  induction 1 as [|x a Hx _ IH]; simpl; lra.
Qed.

Lemma INR_length_pos {A : Type} (x : A) (l : list A) : 0 < INR (length (x :: l)).
Proof.
  apply lt_0_INR. simpl. lia.
Qed.

Lemma mean_mono (a b : vec) : Forall2 Rle a b -> mean a <= mean b.
Proof.
  intros H. unfold mean.
  rewrite <- (Forall2_length _ _ _ H).
  destruct a as [|x a].
  - inversion H; subst. lra.
  - apply Rmult_le_compat_r.
    + left. apply Rinv_0_lt_compat, INR_length_pos.
    + apply Rsum_mono, H.
Qed.

Lemma mean_strict (a b : vec) :
  Forall2 Rlt a b -> a <> [] -> mean a < mean b.
Proof.
  intros H Hne. unfold mean.
  rewrite <- (Forall2_length _ _ _ H).
  destruct a as [|x a]; [congruence|].
  apply Rmult_lt_compat_r.
  - apply Rinv_0_lt_compat, INR_length_pos.
  - apply Rsum_strict; assumption.
Qed.

Lemma mean_zero (a : vec) : Forall (fun x => x = 0) a -> mean a = 0.
Proof.
  intros H. unfold mean. rewrite (Rsum_zero _ H). lra.
Qed.

(** The log-sum-exp form is [(1 - y) x + log (1 + exp (-x))]. *)
Lemma bce_with_logits_softplus (x y : R) :
  bce_with_logits x y = (1 - y) * x + ln (1 + exp (- x)).
Proof.
  unfold bce_with_logits, Rmax.
  destruct (Rle_dec (- x) 0) as [Hle|Hgt]; cbv zeta.
  - replace (- 0) with 0 by lra. replace (- x - 0) with (- x) by lra.
    rewrite exp_0. lra.
  - replace (- - x) with x by lra. replace (- x - - x) with 0 by lra.
    rewrite exp_0.
    replace (exp x + 1) with (exp x * (1 + exp (- x))).
    + rewrite ln_mult.
      * rewrite ln_exp. lra.
      * apply exp_pos.
      * pose proof (exp_pos (- x)). lra.
    + rewrite Rmult_plus_distr_l, <- exp_plus.
      replace (x + - x) with 0 by lra. rewrite exp_0. lra.
Qed.

Lemma sigmoid_pos (x : R) : 0 < sigmoid x.
Proof.
  unfold sigmoid. apply Rinv_0_lt_compat. pose proof (exp_pos (- x)). lra.
Qed.

Lemma ln_sigmoid (x : R) : ln (sigmoid x) = - ln (1 + exp (- x)).
Proof.
  unfold sigmoid. apply ln_Rinv. pose proof (exp_pos (- x)). lra.
Qed.

Lemma one_minus_sigmoid (x : R) : 1 - sigmoid x = exp (- x) * sigmoid x.
Proof.
  unfold sigmoid. pose proof (exp_pos (- x)). field. lra.
Qed.

Lemma ln_one_minus_sigmoid (x : R) :
  ln (1 - sigmoid x) = - x - ln (1 + exp (- x)).
Proof.
  rewrite one_minus_sigmoid, ln_mult.
  - rewrite ln_exp, ln_sigmoid. lra.
  - apply exp_pos.
  - apply sigmoid_pos.
Qed.

(** The criterion on a raw score is the binary cross-entropy of the
    sigmoid of that score. *)
Lemma bce_with_logits_sigmoid (x y : R) :
  bce_with_logits x y = BCE (sigmoid x) y.
Proof.
  rewrite bce_with_logits_softplus. unfold BCE.
  rewrite ln_sigmoid, ln_one_minus_sigmoid. lra.
Qed.

Lemma softplus_decreasing (x x' : R) :
  x < x' -> ln (1 + exp (- x')) < ln (1 + exp (- x)).
Proof.
  intros H. apply ln_increasing.
  - pose proof (exp_pos (- x')). lra.
  - apply Rplus_lt_compat_l, exp_increasing. lra.
Qed.

Lemma zip_with_full {A B : Type} (f : R -> A -> B) (s : vec) (y : A) (n : nat) :
  n = length s -> zip_with f s (repeat y n) = map (fun x => f x y) s.
Proof.
  intros ->. induction s as [|x s IH]; simpl; [reflexivity|]. now rewrite IH.
Qed.

Lemma criterion_value_full (s : vec) (y : R) (n : nat) :
  n = length s ->
  criterion_value s (full n y) = mean (map (fun x => BCE (sigmoid x) y) s).
Proof.
  intros Hn. unfold criterion_value, full.
  rewrite (zip_with_full _ _ _ _ Hn). f_equal.
  apply map_ext. intros x. apply bce_with_logits_sigmoid.
Qed.

End LossFacts.

(** ** Rounding to single precision *)

Module Float32Facts.
Import Float32.
Local Open Scope R_scope.

Lemma ln_2_bounds : 0 < ln 2 < 1.
Proof.
  split.
  - pose proof ln_lt_2. lra.
  - rewrite <- (ln_exp 1). apply ln_increasing; [lra|].
    pose proof (exp_ineq1 1). lra.
Qed.

Lemma ln_powerRZ_2 (k : Z) : ln (powerRZ 2 k) = IZR k * ln 2.
Proof.
  rewrite powerRZ_Rpower by lra. unfold Rpower. apply ln_exp.
Qed.

Lemma powerRZ_2_succ (k : Z) : powerRZ 2 (k + 1) = 2 * powerRZ 2 k.
Proof. rewrite powerRZ_add by lra. simpl. lra. Qed.

(** The binary exponent of a number between two powers of 2. *)
Lemma floor_log2 (k : Z) (x : R) :
  powerRZ 2 k <= x < powerRZ 2 (k + 1) -> Zfloor (ln x / ln 2) = k.
Proof.
  intros [Hlo Hhi]. pose proof ln_2_bounds as [H2 _].
  assert (Hk : 0 < powerRZ 2 k) by (apply powerRZ_lt; lra).
  assert (Hx : 0 < x) by lra.
  apply Zfloor_eq. split.
  - apply Rmult_le_reg_r with (ln 2); [exact H2|].
    unfold Rdiv. rewrite Rmult_assoc, Rinv_l, Rmult_1_r by lra.
    rewrite <- ln_powerRZ_2.
    destruct Hlo as [Hlo|<-]; [left; now apply ln_increasing|right; reflexivity].
  - apply Rmult_lt_reg_r with (ln 2); [exact H2|].
    unfold Rdiv. rewrite Rmult_assoc, Rinv_l, Rmult_1_r by lra.
    rewrite <- plus_IZR, <- ln_powerRZ_2.
    now apply ln_increasing.
Qed.

Lemma nearest_even_int (k : Z) : nearest_even (IZR k) = k.
Proof.
  unfold nearest_even. rewrite ZfloorZ.
  destruct (Rlt_dec (IZR k - IZR k) (1 / 2)) as [_|H]; [reflexivity|].
  exfalso. apply H. lra.
Qed.

Lemma round_0 : round 0 = 0.
Proof.
  unfold round. rewrite Rabs_R0, Rmult_0_l, (nearest_even_int 0). lra.
Qed.

(** A number whose magnitude is an integer of at most 24 bits times a
    power of 2 in range is a binary32 number. *)
Lemma round_exact (k : Z) (m : Z) (x : R) :
  powerRZ 2 k <= Rabs x < powerRZ 2 (k + 1) ->
  (-126 <= k)%Z ->
  Rabs x = IZR m * powerRZ 2 (k - 23) ->
  round x = x.
Proof.
  intros Hk Hmin Hm. unfold round, ulp_exp.
  rewrite (floor_log2 k _ Hk).
  rewrite Z.max_l by lia.
  rewrite Hm, Rmult_assoc, <- powerRZ_add by lra.
  replace (k - 23 + - (k - 23))%Z with 0%Z by lia.
  change (powerRZ 2 0) with 1. rewrite Rmult_1_r, nearest_even_int, <- Hm.
  unfold Rabs. destruct (Rcase_abs x) as [Hx|Hx];
    destruct (Rlt_dec x 0); lra.
Qed.

Lemma round_1 : round 1 = 1.
Proof.
  apply (round_exact 0 8388608).
  - rewrite Rabs_R1. simpl. lra.
  - lia.
  - rewrite Rabs_R1. simpl. lra.
Qed.

Lemma round_200 : round 200 = 200.
Proof.
  assert (H : Rabs 200 = 200) by (apply Rabs_right; lra).
  apply (round_exact 7 13107200); rewrite ?H; [simpl; lra|lia|simpl; lra].
Qed.

Lemma round_300 : round 300 = 300.
Proof.
  assert (H : Rabs 300 = 300) by (apply Rabs_right; lra).
  apply (round_exact 8 9830400); rewrite ?H; [simpl; lra|lia|simpl; lra].
Qed.

Lemma round_opp (x : R) : round (- x) = - round x.
Proof.
  destruct (Req_dec x 0) as [->|Hx].
  - rewrite Ropp_0, round_0. lra.
  - unfold round, ulp_exp. rewrite Rabs_Ropp.
    destruct (Rlt_dec (- x) 0); destruct (Rlt_dec x 0); lra.
Qed.

(** Underflow: what lies below half the smallest positive binary32
    number is rounded to 0. *)
Lemma round_tiny (x : R) : 0 <= x < powerRZ 2 (-150) -> round x = 0.
Proof.
  intros [[Hpos|<-] Hlt]; [|apply round_0].
  pose proof ln_2_bounds as [H2 _].
  assert (He : ulp_exp x = (-149)%Z).
  { unfold ulp_exp. apply Z.max_r.
    assert (Zfloor (ln (Rabs x) / ln 2) < -149)%Z; [|lia].
    apply lt_IZR. pose proof (Zfloor_bound (ln (Rabs x) / ln 2)) as [Hf _].
    eapply Rle_lt_trans; [exact Hf|].
    rewrite Rabs_right by lra.
    apply Rmult_lt_reg_r with (ln 2); [exact H2|].
    unfold Rdiv. rewrite Rmult_assoc, Rinv_l, Rmult_1_r by lra.
    rewrite <- ln_powerRZ_2.
    apply ln_increasing; [exact Hpos|].
    eapply Rlt_trans; [exact Hlt|].
    change (-149)%Z with (-150 + 1)%Z. rewrite powerRZ_2_succ.
    pose proof (powerRZ_lt 2 (-150)). lra. }
  unfold round. rewrite He, Rabs_right by lra.
  assert (Hm : 0 < x * powerRZ 2 (- -149) < 1 / 2).
  { assert (Hp : 0 < powerRZ 2 (- -149)) by (apply powerRZ_lt; lra).
    split; [now apply Rmult_lt_0_compat|].
    replace (1 / 2) with (powerRZ 2 (-150) * powerRZ 2 (- -149)).
    - now apply Rmult_lt_compat_r.
    - rewrite <- powerRZ_add by lra.
      change (-150 + - -149)%Z with (-1)%Z. simpl. lra. }
  assert (Hn : nearest_even (x * powerRZ 2 (- -149)) = 0%Z).
  { unfold nearest_even.
    assert (Hfl : Zfloor (x * powerRZ 2 (- -149)) = 0%Z) by (apply Zfloor_eq; lra).
    rewrite Hfl.
    destruct (Rlt_dec _ _) as [_|Hn]; [reflexivity|]. exfalso. apply Hn. lra. }
  rewrite Hn. lra.
Qed.

Lemma exp_underflows (x : R) : 150 <= x -> 0 <= exp (- x) < powerRZ 2 (-150).
Proof.
  intros Hx. pose proof ln_2_bounds as [H0 H1].
  split; [left; apply exp_pos|].
  rewrite powerRZ_Rpower by lra. unfold Rpower.
  apply exp_increasing. nra.
Qed.

(** At a binary32 score of 150 or more, against the target 1, every
    rounded operation of the criterion gives 0 or 1 exactly. *)
Lemma bce_saturates (x : R) :
  round x = x -> 150 <= x -> bce_with_logits x 1 = 0.
Proof.
  intros Hr Hx. unfold bce_with_logits, fadd, fsub, fmul, fexp, flog.
  rewrite (Rmax_right (- x) 0) by lra.
  replace (1 - 1) with 0 by lra. rewrite round_0, Rmult_0_l, round_0.
  rewrite Rplus_0_l, round_0, Ropp_0, exp_0, round_1.
  replace (- x - 0) with (- x) by lra. rewrite round_opp, Hr.
  rewrite (round_tiny _ (exp_underflows x Hx)).
  rewrite Rplus_0_r, round_1, ln_1, round_0, Rplus_0_l. apply round_0.
Qed.

Lemma criterion_saturates (s : vec) :
  Forall (fun x => round x = x /\ 150 <= x) s ->
  criterion_value s (full (length s) 1) = 0.
Proof.
  intros H. unfold criterion_value, mean, full.
  rewrite (LossFacts.zip_with_full _ _ _ _ eq_refl).
  assert (Hs : forall acc, acc = 0 ->
            fold_left fadd (map (fun x => bce_with_logits x 1) s) acc = 0).
  { induction H as [|x s [Hr Hx] _ IH]; intros acc ->; [reflexivity|].
    cbn [map fold_left]. apply IH.
    rewrite (bce_saturates x Hr Hx). unfold fadd. rewrite Rplus_0_l. apply round_0. }
  rewrite (Hs 0 eq_refl). unfold fdiv, Rdiv. rewrite Rmult_0_l. apply round_0.
Qed.

End Float32Facts.

(** C10 (amended). The hinge loss on real scores,
    [s |-> mean (relu (1 - s))], does not increase when the scores increase
    and is 0 once every score is at least 1.  Over the reals, the
    cross-entropy loss on real scores, [s |-> criterion(s, 1)], strictly
    decreases when the (raw) scores strictly increase.  In single
    precision it does not: it is exactly 0 on every batch of binary32
    scores that are all at least 150. *)
Theorem real_loss_monotone :
  (forall s s' : vec, Forall2 Rle s s' -> (hinge_real_loss s' <= hinge_real_loss s)%R) /\
  (forall s : vec, Forall (fun x => (1 <= x)%R) s -> hinge_real_loss s = 0%R) /\
  (forall s s' : vec, Forall2 Rlt s s' -> s <> [] ->
     (criterion_value s' (full (length s') 1) < criterion_value s (full (length s) 1))%R) /\
  (forall s : vec,
     s <> [] -> Forall (fun x => Float32.round x = x /\ (150 <= x)%R) s ->
     Float32.criterion_value s (full (length s) 1) = 0%R).
Proof.
  split; [|split; [|split]]; [| | |intros s _; apply Float32Facts.criterion_saturates].
  - intros s s' H. unfold hinge_real_loss. apply LossFacts.mean_mono.
    induction H as [|x y a b Hxy _ IH]; simpl; constructor; [|exact IH].
    apply LossFacts.relu_mono. lra.
  - intros s H. unfold hinge_real_loss. apply LossFacts.mean_zero.
    induction H as [|x a Hx _ IH]; simpl; constructor; [|exact IH].
    apply LossFacts.relu_nonpos. lra.
  - intros s s' H Hne. unfold criterion_value, full.
    rewrite !(LossFacts.zip_with_full _ _ _ _ eq_refl).
    apply LossFacts.mean_strict.
    + clear Hne.
      induction H as [|x y a b Hxy _ IH]; simpl; constructor; [|exact IH].
      rewrite !LossFacts.bce_with_logits_softplus.
      pose proof (LossFacts.softplus_decreasing _ _ Hxy). lra.
    + destruct H; [congruence|discriminate].
Qed.

Lemma real_loss_monotone_witness :
  (hinge_real_loss [2; 3] <= hinge_real_loss [0; 3])%R /\
  hinge_real_loss [1; 5]%R = 0%R /\
  (criterion_value [1] (full 1 1) < criterion_value [0] (full 1 1))%R /\
  Float32.criterion_value [200%R] (full 1 1) = 0%R.
Proof.
  destruct real_loss_monotone as (Hmono & Hsat & Hbce & Hflt).
  split; [|split; [|split]].
  - apply (Hmono [0; 3]%R [2; 3]%R). repeat constructor; lra.
  - apply Hsat. repeat constructor; lra.
  - apply (Hbce [0%R] [1%R]); [repeat constructor; lra | discriminate].
  - apply (Hflt [200%R]); [discriminate|].
    constructor; [|constructor]. split; [apply Float32Facts.round_200|lra].
Defined.

(** C10 as the specification words it does not hold of the losses the
    program computes: in single precision the cross-entropy loss on real
    scores is exactly 0 at the score 200 and at the score 300. *)
Lemma cross_entropy_not_strict_in_float32 :
  ~ strictly_decreasing_in_score Float32.criterion_value
      (fun x => Float32.round x = x).
Proof.
  intros H.
  specialize (H [200%R] [300%R]).
  assert (H2 : Float32.criterion_value [200%R] (full 1 1) = 0%R).
  { apply (Float32Facts.criterion_saturates [200%R]).
    constructor; [|constructor]. split; [apply Float32Facts.round_200|lra]. }
  assert (H3 : Float32.criterion_value [300%R] (full 1 1) = 0%R).
  { apply (Float32Facts.criterion_saturates [300%R]).
    constructor; [|constructor]. split; [apply Float32Facts.round_300|lra]. }
  cbn [length] in H. rewrite H2, H3 in H.
  apply (Rlt_irrefl 0), H.
  - constructor; [apply Float32Facts.round_200|constructor].
  - constructor; [apply Float32Facts.round_300|constructor].
  - constructor; [lra|constructor].
  - discriminate.
Qed.

(** ** File names *)

Module PathFacts.

Lemma length_append (a b : string) :
  String.length (a +:+ b) = String.length a + String.length b.
Proof.
  induction a as [|c a IH]; simpl; [reflexivity|]. now rewrite IH.
Qed.

Lemma append_inj_r (a b t : string) : a +:+ t = b +:+ t -> a = b.
Proof.
  revert b. induction a as [|c a IH]; intros [|c' b] H; simpl in H.
  - reflexivity.
  - apply (f_equal String.length) in H.
    rewrite (length_append "") in H. simpl in H.
    rewrite length_append in H. lia.
  - apply (f_equal String.length) in H.
    rewrite (length_append "") in H. simpl in H.
    rewrite length_append in H. lia.
  - injection H as -> H. f_equal. now apply IH.
Qed.

Lemma parse_fmt_d (n : nat) : parse_d (fmt_d n) = Some n.
Proof.
  unfold parse_d, fmt_d. rewrite NilEmpty.usu. simpl.
  now rewrite DecimalNat.Unsigned.of_to.
Qed.

Lemma parse_zeros (k : nat) (s : string) : parse_d (zeros k +:+ s) = parse_d s.
Proof.
  induction k as [|k IH]; [reflexivity|].
  rewrite <- IH. unfold parse_d.
  change (zeros (S k) +:+ s) with (String "0"%char (zeros k +:+ s)).
  cbn [NilEmpty.uint_of_string].
  destruct (NilEmpty.uint_of_string (zeros k +:+ s)) as [d|]; [|reflexivity].
  reflexivity.
Qed.

Lemma fmt_03d_inj (a b : nat) : fmt_03d a = fmt_03d b -> a = b.
Proof.
  intros H. apply (f_equal parse_d) in H.
  unfold fmt_03d in H. rewrite !parse_zeros, !parse_fmt_d in H. congruence.
Qed.

Lemma fake_samples_path_inj (outf : string) (e1 e2 : nat) :
  fake_samples_path outf e1 = fake_samples_path outf e2 -> e1 = e2.
Proof.
  unfold fake_samples_path. intros H.
  apply String.app_inj, String.app_inj, append_inj_r in H.
  now apply fmt_03d_inj.
Qed.

Lemma real_fake_paths_differ (outf : string) (e : nat) :
  real_samples_path outf <> fake_samples_path outf e.
Proof.
  unfold real_samples_path, fake_samples_path. intros H.
  apply String.app_inj in H. discriminate H.
Qed.

End PathFacts.

(** ** Autograd: which leaves a backward pass reaches *)

Section Isolation.

Variable E : torch_env.
Variable opt : options.

Lemma accumulate_None (g : option vec) : accumulate g None = g.
Proof. reflexivity. Qed.

(** Two passes onto a cleared gradient leave the sum of the two. *)
Lemma accumulate_twice (a b : vec) :
  accumulate (accumulate None (Some a)) (Some b) = Some (vadd a b).
Proof. reflexivity. Qed.

Lemma set_grad_same (m : module_state) : set_grad (grad m) m = m.
Proof. destruct m; reflexivity. Qed.

Lemma leaf_isolated {A : Type} (x : A) : isolated_from_G (leaf x).
Proof. intros ct. reflexivity. Qed.

Lemma detach_isolated {A : Type} (t : tensor A) : isolated_from_G (detach t).
Proof. apply leaf_isolated. Qed.

Lemma pointwise_isolated (f f' : R -> R) (t : tensor vec) :
  isolated_from_G t -> isolated_from_G (pointwise f f' t).
Proof. intros H ct. apply H. Qed.

Lemma tmean_isolated (t : tensor vec) :
  isolated_from_G t -> isolated_from_G (tmean t).
Proof. intros H ct. apply H. Qed.

Lemma criterion_isolated (t : tensor vec) (label : vec) :
  isolated_from_G t -> isolated_from_G (criterion t label).
Proof. intros H ct. apply H. Qed.

(** The discriminator adds a path to its own parameters only: its score
    of an input that does not reach the generator does not reach it. *)
Lemma netD_call_isolated (x : tensor batch) (s : state E) :
  isolated_from_G x -> isolated_from_G (eval (netD_call E opt x) s).
Proof.
  intros H ct. unfold eval, netD_call. cbn. now rewrite H.
Qed.

(** The generator's output does reach the generator. *)
Lemma netG_call_reaches_G (z : batch) (s : state E) (ct : batch) :
  snd (grad_fn (eval (netG_call E opt z) s) ct)
  = Some (G_vjp_params (netG_class E opt) (parameters (netG s)) (buffers (netG s)) z ct).
Proof. reflexivity. Qed.

(** Every score of the discriminator reaches the discriminator. *)
Lemma netD_call_reaches_D (x : tensor batch) (s : state E) (ct : vec) :
  fst (grad_fn (eval (netD_call E opt x) s) ct) <> None.
Proof.
  unfold eval, netD_call. cbn.
  destruct (fst (grad_fn x _)); discriminate.
Qed.

(** [backward] on a loss that does not reach the generator leaves the
    generator as it was: parameters, buffers and gradient. *)
Lemma backward_isolated (loss : tensor R) (s : state E) :
  isolated_from_G loss -> netG (exec (backward E loss) s) = netG s.
Proof.
  intros H. unfold exec, backward. cbn. rewrite H, accumulate_None.
  apply set_grad_same.
Qed.

(** [zero_grad] leaves no gradient, or a gradient of zeros. *)
Lemma zero_grad_cleared (m : module_state) :
  match grad (zero_grad E m) with
  | None => True
  | Some g => Forall (fun x => x = 0%R) g
  end.
Proof.
  unfold zero_grad. cbn. destruct (set_to_none E); [exact I|].
  destruct (grad m) as [g|]; [|exact I]. cbn.
  induction g; constructor; auto.
Qed.

End Isolation.

(** ** One batch *)

Section TrainingStep.

Variable E : torch_env.
Variable opt : options.
Variables real_label fake_label : R.

(** The loss of the fake phase is computed from the score of the detached
    generator output. *)
Lemma errD_fake_unfold (batch_size : nat) (label : vec) (s : state E) :
  let s1 := exec (torch_randn E opt batch_size) s in
  let z := eval (torch_randn E opt batch_size) s in
  let fk := eval (netG_call E opt z) s1 in
  let output := eval (netD_call E opt (detach fk)) (exec (netG_call E opt z) s1) in
  let f := eval (train_with_fake E opt fake_label batch_size label) s in
  noise f = z /\ fake f = fk /\
  errD_fake f = (if sagan opt then tmean (ReLU (radd 1 output))
                 else criterion output (fill_ label fake_label)).
Proof. cbv zeta. split; [|split]; reflexivity. Qed.

Lemma errD_fake_isolated (batch_size : nat) (label : vec) (s : state E) :
  isolated_from_G
    (errD_fake (eval (train_with_fake E opt fake_label batch_size label) s)).
Proof.
  destruct (errD_fake_unfold batch_size label s) as (_ & _ & ->).
  destruct (sagan opt).
  - apply tmean_isolated, pointwise_isolated, pointwise_isolated,
      netD_call_isolated, detach_isolated.
  - apply criterion_isolated, netD_call_isolated, detach_isolated.
Qed.

(** C1. In "train with fake" the discriminator scores a detached copy of
    the generator output, so the loss of that phase does not reach the
    generator: its backward pass leaves the generator (parameters, buffers
    and parameter gradients) exactly as it finds it, from whatever state
    it is run, and the gradient of the generator after the whole phase,
    and after the whole discriminator update of a batch, is the one it had
    before. *)
Theorem fake_phase_gradient_isolation (batch_size : nat) (label : vec) (s : state E) :
  let phase := train_with_fake E opt fake_label batch_size label in
  isolated_from_G (errD_fake (eval phase s)) /\
  (forall s' : state E, netG (exec (backward E (errD_fake (eval phase s))) s') = netG s') /\
  grad (netG (exec phase s)) = grad (netG s) /\
  parameters (netG (exec phase s)) = parameters (netG s) /\
  (forall data : batch * vec,
     grad (netG (exec (update_D_network E opt real_label fake_label data) s))
     = grad (netG s)).
Proof.
  cbv zeta. pose proof (errD_fake_isolated batch_size label s) as Hiso.
  split; [exact Hiso|]. split; [|split; [|split]].
  - intros s'. now apply backward_isolated.
  - unfold exec, train_with_fake. cbn. destruct (sagan opt); reflexivity.
  - unfold exec, train_with_fake. cbn. destruct (sagan opt); reflexivity.
  - intros data. unfold exec, update_D_network, accumulate_D, train_with_real,
      train_with_fake. cbn. destruct (sagan opt); reflexivity.
Qed.

(** *** The events of one batch *)

Lemma emits_new_events {A : Type} (m : M E A) (s : state E) (evs : list event) :
  emits m s evs -> new_events m s = evs.
Proof.
  unfold emits, new_events. intros ->. apply drop_app_length.
Qed.

Lemma emits_bind {A B : Type} (m : M E A) (k : A -> M E B) (s : state E)
    (a b : list event) :
  emits m s a -> emits (k (eval m s)) (exec m s) b ->
  emits (bind m k) s (a ++ b).
Proof.
  unfold emits, exec, eval, bind. intros Ha Hb. cbn in *.
  rewrite Hb, Ha. now rewrite app_assoc.
Qed.

Lemma emits_ret {A : Type} (a : A) (s : state E) : emits (ret a) s [].
Proof. unfold emits. cbn. now rewrite app_nil_r. Qed.

Lemma train_with_real_emits (data : batch * vec) (s : state E) :
  emits (train_with_real E opt real_label data) s
    [EvZeroGrad NetD;
     EvForward NetD (fst data) false;
     EvBackward (value (errD_real (eval (train_with_real E opt real_label data) s)))].
Proof.
  unfold emits, exec, eval, train_with_real. cbn.
  now rewrite <- !app_assoc.
Qed.

Lemma train_with_fake_emits (batch_size : nat) (label : vec) (s : state E) :
  let f := eval (train_with_fake E opt fake_label batch_size label) s in
  emits (train_with_fake E opt fake_label batch_size label) s
    [EvRandn batch_size (nz opt);
     EvForward NetG (noise f) false;
     EvForward NetD (value (fake f)) false;
     EvBackward (value (errD_fake f))].
Proof.
  unfold emits, exec, eval, train_with_fake. cbn.
  now rewrite <- !app_assoc.
Qed.

Lemma update_G_network_emits (fk : tensor batch) (label : vec) (s : state E) :
  emits (update_G_network E opt real_label fk label) s
    [EvZeroGrad NetG;
     EvForward NetD (value fk) (requires_grad fk);
     EvBackward (value (errG (eval (update_G_network E opt real_label fk label) s)));
     EvStep NetG].
Proof.
  unfold emits, exec, eval, update_G_network. cbn.
  now rewrite <- !app_assoc.
Qed.

Lemma snapshot_emits (epoch i : nat) (real_cpu : batch) (s : state E) :
  emits (snapshot E opt epoch i real_cpu) s
    (snapshot_events (netG_class E opt) (outf opt) epoch i real_cpu (netG s)
                     (fixed_noise s)).
Proof.
  unfold emits, exec, snapshot, snapshot_events.
  destruct (snapshot_due i); cbn.
  - now rewrite <- !app_assoc.
  - now rewrite app_nil_r.
Qed.

Lemma loop_body_emits (epoch len i : nat) (data : batch * vec) (s : state E) :
  let body := loop_body E opt real_label fake_label epoch len i data in
  exists m : module_state,
    emits body s
      (batch_events (nz opt) (fst data) (eval body s)
       ++ snapshot_events (netG_class E opt) (outf opt) epoch i (fst data) m
            (fixed_noise s)).
Proof.
  cbv zeta.
  unfold emits, exec, eval, loop_body, snapshot, snapshot_events, batch_events.
  destruct (snapshot_due i); [eexists | exists (netG s)]; cbn;
    rewrite <- !app_assoc; reflexivity.
Qed.


Lemma snapshot_log (epoch i : nat) (real_cpu : batch) (s : state E) :
  log (snd (snapshot E opt epoch i real_cpu s)) = log s.
Proof. unfold snapshot. destruct (snapshot_due i); reflexivity. Qed.

(** What [zero_grad] leaves: no gradient tensor, or one of zeros of the
    size of the one it found. *)
Lemma zero_grad_spec (m : module_state) :
  match grad (zero_grad E m) with
  | None => set_to_none E = true \/ grad m = None
  | Some z =>
      exists g0, grad m = Some g0 /\ length z = length g0 /\
                 Forall (fun x => x = 0%R) z
  end.
Proof.
  unfold zero_grad. cbn. destruct (set_to_none E); [now left|].
  destruct (grad m) as [g0|]; cbn; [|now right].
  exists g0. split; [reflexivity|]. split; [apply length_map|].
  induction g0; constructor; auto.
Qed.

(** Two contributions accumulated onto a cleared gradient: entry by
    entry, the first, and then the sum of the two. *)
Lemma accumulate_entries (c : option vec) (a b : vec) :
  match c with None => True | Some z => Forall (fun x => x = 0%R) z end ->
  exists g_r g : vec,
    accumulate c (Some a) = Some g_r /\
    accumulate (accumulate c (Some a)) (Some b) = Some g /\
    (forall k x,
       match c with None => True | Some z => k < length z end ->
       a !! k = Some x -> g_r !! k = Some x) /\
    (forall k x y,
       match c with None => True | Some z => k < length z end ->
       a !! k = Some x -> b !! k = Some y -> g !! k = Some (x + y)%R) /\
    length g = match c with
               | None => Nat.min (length a) (length b)
               | Some z => Nat.min (Nat.min (length z) (length a)) (length b)
               end.
Proof.
  intros Hz. unfold vec in *. destruct c as [z|]; cbn [accumulate].
  - do 2 eexists. split; [reflexivity|]. split; [reflexivity|].
    assert (H0 : forall k, k < length z -> z !! k = Some 0%R).
    { intros k Hk. destruct (lookup_lt_is_Some_2 z k Hk) as [v Hv].
      pose proof (proj1 (Forall_lookup _ z) Hz k v Hv) as Hv0. cbv beta in Hv0.
      subst v. exact Hv. }
    split.
    + intros k x Hk Ha. unfold vadd. rewrite lookup_zip_with, (H0 k Hk), Ha.
      cbn. f_equal. lra.
    + split; [|unfold vadd; now rewrite !length_zip_with].
      intros k x y Hk Ha Hb. unfold vadd.
      rewrite !lookup_zip_with, (H0 k Hk), Ha, Hb. cbn. f_equal. lra.
  - do 2 eexists. split; [reflexivity|]. split; [reflexivity|]. split.
    + intros k x _ Ha. exact Ha.
    + split; [|unfold vadd; now rewrite length_zip_with].
      intros k x y _ Ha Hb. unfold vadd. rewrite lookup_zip_with, Ha, Hb.
      reflexivity.
Qed.

(** [optimizer.step()] on a module that has a gradient. *)
Lemma step_with_grad (lr : R) (o : adam_state E) (m : module_state) (g : vec) :
  grad m = Some g ->
  step E lr o m
  = ({| parameters := fst (Adam_step E lr betas o (parameters m) g);
        buffers := buffers m; grad := Some g |},
     snd (Adam_step E lr betas o (parameters m) g)).
Proof. intros H. unfold step. now rewrite H. Qed.

(** C3. In one batch the discriminator's gradient is cleared once, first
    of all: [netD.zero_grad()] leaves no gradient tensor, or one of zeros.
    The backward passes of the real loss and of the fake loss both reach
    the discriminator, each with a vector-Jacobian product at the
    parameters the batch found, and the second is added to what the first
    left: after the real phase every entry of the gradient is the entry of
    the first contribution, and after the fake phase the sum of the
    entries of the two, whatever the gradient was before the batch; the
    gradient has an entry exactly where the two contributions (and the
    cleared tensor, if there is one) have.  The
    parameters and the optimizer do not move during the two phases.  The
    single [optimizerD.step()] that follows is one Adam step, with the
    learning rate 0.0004 and the momentum coefficients (0, 0.9), from
    the parameters and the optimizer state the batch found, on that summed
    gradient.  The reported loss [errD] is the sum of the two losses; it
    goes to the log line, and no backward pass starts from it: the
    backward passes of a batch are those of [errD_real], [errD_fake] and
    [errG]. *)
Theorem discriminator_update (epoch len i : nat) (data : batch * vec) (s : state E) :
  let real := train_with_real E opt real_label data in
  let acc := accumulate_D E opt real_label fake_label data in
  let upd := update_D_network E opt real_label fake_label data in
  let body := loop_body E opt real_label fake_label epoch len i data in
  let L := eval body s in
  let cleared := grad (netD (exec (netD_zero_grad E) s)) in
  let in_range (k : nat) :=
    match cleared with None => True | Some z => k < length z end in
  match cleared with
  | None => set_to_none E = true \/ grad (netD s) = None
  | Some z =>
      exists g0, grad (netD s) = Some g0 /\ length z = length g0 /\
                 Forall (fun x => x = 0%R) z
  end /\
  exists a b g_real g_sum : vec,
    fst (grad_fn (errD_real (loc_real L)) 1%R) = Some a /\
    fst (grad_fn (errD_fake (loc_fake L)) 1%R) = Some b /\
    (exists ct : vec,
       a = D_vjp_params (netD_class E opt) (parameters (netD s)) (buffers (netD s))
             (fst data) ct) /\
    (exists (bufs ct : vec),
       b = D_vjp_params (netD_class E opt) (parameters (netD s)) bufs
             (value (fake (loc_fake L))) ct) /\
    grad (netD (exec real s)) = Some g_real /\
    (forall k x, in_range k -> a !! k = Some x -> g_real !! k = Some x) /\
    grad (netD (exec acc s)) = Some g_sum /\
    (forall k x y,
       in_range k -> a !! k = Some x -> b !! k = Some y ->
       g_sum !! k = Some (x + y)%R) /\
    length g_sum
      = match cleared with
        | None => Nat.min (length a) (length b)
        | Some z => Nat.min (Nat.min (length z) (length a)) (length b)
        end /\
    parameters (netD (exec acc s)) = parameters (netD s) /\
    optimizerD (exec acc s) = optimizerD s /\
    parameters (netD (exec upd s))
      = fst (Adam_step E (4 / 10000) (0, 9 / 10)%R (optimizerD s)
               (parameters (netD s)) g_sum) /\
    optimizerD (exec upd s)
      = snd (Adam_step E (4 / 10000) (0, 9 / 10)%R (optimizerD s)
               (parameters (netD s)) g_sum) /\
    grad (netD (exec upd s)) = Some g_sum /\
    new_events upd s
      = [EvZeroGrad NetD;
         EvForward NetD (fst data) false;
         EvBackward (value (errD_real (loc_real L)));
         EvRandn (length (fst data)) (nz opt);
         EvForward NetG (noise (loc_fake L)) false;
         EvForward NetD (value (fake (loc_fake L))) false;
         EvBackward (value (errD_fake (loc_fake L)));
         EvStep NetD] /\
    List.filter (is_step NetD) (new_events body s) = [EvStep NetD] /\
    List.filter (is_zero_grad NetD) (new_events body s) = [EvZeroGrad NetD] /\
    List.filter is_backward (new_events body s)
      = [EvBackward (value (errD_real (loc_real L)));
         EvBackward (value (errD_fake (loc_fake L)));
         EvBackward (value (errG (loc_gen L)))] /\
    value (errD L)
      = (value (errD_real (loc_real L)) + value (errD_fake (loc_fake L)))%R /\
    exists line : log_line,
      log (exec body s) = log s ++ [line] /\ Loss_D line = value (errD L).
Proof.
  cbv zeta.
  change (grad (netD (exec (netD_zero_grad E) s))) with (grad (zero_grad E (netD s))).
  split; [apply zero_grad_spec|].
  assert (Hupd : emits (update_D_network E opt real_label fake_label data) s
            [EvZeroGrad NetD;
             EvForward NetD (fst data) false;
             EvBackward (value (errD_real (loc_real
               (eval (loop_body E opt real_label fake_label epoch len i data) s))));
             EvRandn (length (fst data)) (nz opt);
             EvForward NetG (noise (loc_fake
               (eval (loop_body E opt real_label fake_label epoch len i data) s))) false;
             EvForward NetD (value (fake (loc_fake
               (eval (loop_body E opt real_label fake_label epoch len i data) s)))) false;
             EvBackward (value (errD_fake (loc_fake
               (eval (loop_body E opt real_label fake_label epoch len i data) s))));
             EvStep NetD]).
  { unfold emits, exec, eval, loop_body, update_D_network. cbn.
    now rewrite <- !app_assoc. }
  destruct (loop_body_emits epoch len i data s) as [m Hm].
  rewrite (emits_new_events _ _ _ Hm), (emits_new_events _ _ _ Hupd).
  unfold batch_events, snapshot_events.
  set (L := eval (loop_body E opt real_label fake_label epoch len i data) s).
  assert (Ha : exists ct : vec,
             fst (grad_fn (errD_real (loc_real L)) 1%R)
             = Some (D_vjp_params (netD_class E opt) (parameters (netD s))
                       (buffers (netD s)) (fst data) ct)).
  { unfold L, eval, loop_body. cbn. destruct (sagan opt); eexists; reflexivity. }
  assert (Hb : exists bufs ct : vec,
             fst (grad_fn (errD_fake (loc_fake L)) 1%R)
             = Some (D_vjp_params (netD_class E opt) (parameters (netD s)) bufs
                       (value (fake (loc_fake L))) ct)).
  { unfold L, eval, loop_body. cbn. destruct (sagan opt); do 2 eexists; reflexivity. }
  destruct Ha as (ct_a & Ha). destruct Hb as (bufs & ct_b & Hb).
  set (a := D_vjp_params _ _ _ (fst data) ct_a) in Ha.
  set (b := D_vjp_params _ _ bufs _ ct_b) in Hb.
  assert (Hreal : grad (netD (exec (train_with_real E opt real_label data) s))
                  = accumulate (grad (zero_grad E (netD s)))
                      (fst (grad_fn (errD_real (loc_real L)) 1%R))) by reflexivity.
  assert (Hacc : grad (netD (exec (accumulate_D E opt real_label fake_label data) s))
                 = accumulate
                     (accumulate (grad (zero_grad E (netD s)))
                        (fst (grad_fn (errD_real (loc_real L)) 1%R)))
                     (fst (grad_fn (errD_fake (loc_fake L)) 1%R))) by reflexivity.
  assert (Hpar : parameters (netD (exec (accumulate_D E opt real_label fake_label data) s))
                 = parameters (netD s)) by reflexivity.
  assert (Hopt : optimizerD (exec (accumulate_D E opt real_label fake_label data) s)
                 = optimizerD s) by reflexivity.
  assert (HstepD : netD (exec (update_D_network E opt real_label fake_label data) s)
                   = fst (step E lrD (optimizerD s)
                            (netD (exec (accumulate_D E opt real_label fake_label data) s))))
    by reflexivity.
  assert (HstepO : optimizerD (exec (update_D_network E opt real_label fake_label data) s)
                   = snd (step E lrD (optimizerD s)
                            (netD (exec (accumulate_D E opt real_label fake_label data) s))))
    by reflexivity.
  rewrite Ha in Hreal, Hacc. rewrite Hb in Hacc.
  assert (Hz : match grad (zero_grad E (netD s)) with
               | None => True
               | Some z => Forall (fun x => x = 0%R) z
               end).
  { pose proof (zero_grad_spec (netD s)) as H.
    destruct (grad (zero_grad E (netD s))); [|exact I].
    destruct H as (g0 & _ & _ & H). exact H. }
  destruct (accumulate_entries _ a b Hz)
    as (g_real & g_sum & Hr & Hs & Hkr & Hks & Hlen).
  rewrite Hr in Hreal. rewrite Hs in Hacc.
  rewrite (step_with_grad _ _ _ _ Hacc), Hpar in HstepD, HstepO.
  cbn [fst snd] in HstepD, HstepO.
  exists a, b, g_real, g_sum.
  split; [exact Ha|]. split; [exact Hb|].
  split; [now exists ct_a|]. split; [now exists bufs, ct_b|].
  split; [exact Hreal|]. split; [exact Hkr|].
  split; [exact Hacc|]. split; [exact Hks|]. split; [exact Hlen|].
  split; [exact Hpar|]. split; [exact Hopt|].
  split; [now rewrite HstepD|]. split; [exact HstepO|].
  split; [now rewrite HstepD|].
  repeat split; try reflexivity.
  - rewrite List.filter_app. destruct (snapshot_due i); reflexivity.
  - rewrite List.filter_app. destruct (snapshot_due i); reflexivity.
  - rewrite List.filter_app. destruct (snapshot_due i); reflexivity.
  - eexists. split.
    + unfold exec, loop_body. cbn -[snapshot]. rewrite snapshot_log. reflexivity.
    + reflexivity.
Qed.

(** *** What each part of a batch leaves untouched *)

Lemma exec_bind {A B : Type} (m : M E A) (k : A -> M E B) (s : state E) :
  exec (bind m k) s = exec (k (eval m s)) (exec m s).
Proof. reflexivity. Qed.

Lemma eval_bind {A B : Type} (m : M E A) (k : A -> M E B) (s : state E) :
  eval (bind m k) s = eval (k (eval m s)) (exec m s).
Proof. reflexivity. Qed.

Lemma exec_ret {A : Type} (a : A) (s : state E) : exec (ret a) s = s.
Proof. reflexivity. Qed.

Lemma snapshot_netD (epoch i : nat) (real_cpu : batch) (s : state E) :
  netD (exec (snapshot E opt epoch i real_cpu) s) = netD s.
Proof. unfold exec, snapshot. destruct (snapshot_due i); reflexivity. Qed.

Lemma snapshot_optimizerD (epoch i : nat) (real_cpu : batch) (s : state E) :
  optimizerD (exec (snapshot E opt epoch i real_cpu) s) = optimizerD s.
Proof. unfold exec, snapshot. destruct (snapshot_due i); reflexivity. Qed.

Lemma logging_info_netD (l : log_line) (s : state E) :
  netD (exec (logging_info E opt l) s) = netD s.
Proof. reflexivity. Qed.

Lemma logging_info_optimizerD (l : log_line) (s : state E) :
  optimizerD (exec (logging_info E opt l) s) = optimizerD s.
Proof. reflexivity. Qed.

Lemma update_G_network_netD (fk : tensor batch) (label : vec) (s : state E) :
  let gen := update_G_network E opt real_label fk label in
  parameters (netD (exec gen s)) = parameters (netD s) /\
  optimizerD (exec gen s) = optimizerD s /\
  grad (netD (exec gen s))
    = accumulate (grad (netD s)) (fst (grad_fn (errG (eval gen s)) 1%R)).
Proof. cbv zeta. split; [|split]; reflexivity. Qed.

Lemma update_G_network_netG (fk : tensor batch) (label : vec) (s : state E) :
  let gen := update_G_network E opt real_label fk label in
  let m := set_grad (accumulate (grad (zero_grad E (netG s)))
                       (snd (grad_fn (errG (eval gen s)) 1%R))) (netG s) in
  netG (exec gen s) = fst (step E lrG (optimizerG s) m) /\
  optimizerG (exec gen s) = snd (step E lrG (optimizerG s) m).
Proof.
  cbv zeta. unfold exec, eval, update_G_network. cbn. split; reflexivity.
Qed.

Lemma errG_reaches_D (fk : tensor batch) (label : vec) (s : state E) :
  fst (grad_fn (errG (eval (update_G_network E opt real_label fk label) s)) 1%R)
  <> None.
Proof.
  unfold eval, update_G_network. cbn.
  destruct (sagan opt); cbn; destruct (fst (grad_fn fk _)); discriminate.
Qed.

(** The state at the end of a batch, part by part. *)
Lemma loop_body_exec (epoch len i : nat) (data : batch * vec) (s : state E) :
  exists (fk : tensor batch) (label : vec) (line : log_line),
    exec (loop_body E opt real_label fake_label epoch len i data) s
    = exec (snapshot E opt epoch i (fst data))
        (exec (logging_info E opt line)
           (exec (update_G_network E opt real_label fk label)
              (exec (update_D_network E opt real_label fake_label data) s))).
Proof.
  do 3 eexists. unfold loop_body.
  rewrite exec_bind. cbv beta zeta.
  rewrite exec_bind. rewrite exec_bind. rewrite exec_bind.
  rewrite exec_ret. reflexivity.
Qed.

(** C4. The generator phase, run on any tensor [fk] from any state, does
    not touch the discriminator's parameters nor the state of its
    optimizer.  The backward pass of the generator loss does reach the
    discriminator, and adds to its parameter gradient; but the phase takes
    no discriminator step, only the one generator step, on the gradient
    that pass left on the generator.  Nothing later in the batch moves
    the discriminator either, and the [zero_grad] that opens the next
    discriminator update clears what the generator phase left. *)
Theorem generator_phase_no_discriminator_update
    (epoch len i : nat) (data : batch * vec) (fk : tensor batch) (label : vec)
    (s : state E) :
  let gen := update_G_network E opt real_label fk label in
  let g_D := fst (grad_fn (errG (eval gen s)) 1%R) in
  let g_G := snd (grad_fn (errG (eval gen s)) 1%R) in
  let body := loop_body E opt real_label fake_label epoch len i data in
  let upd := update_D_network E opt real_label fake_label data in
  parameters (netD (exec gen s)) = parameters (netD s) /\
  optimizerD (exec gen s) = optimizerD s /\
  g_D <> None /\
  grad (netD (exec gen s)) = accumulate (grad (netD s)) g_D /\
  List.filter (is_step NetD) (new_events gen s) = [] /\
  List.filter (is_step NetG) (new_events gen s) = [EvStep NetG] /\
  netG (exec gen s)
    = fst (step E lrG (optimizerG s)
             (set_grad (accumulate (grad (zero_grad E (netG s))) g_G) (netG s))) /\
  optimizerG (exec gen s)
    = snd (step E lrG (optimizerG s)
             (set_grad (accumulate (grad (zero_grad E (netG s))) g_G) (netG s))) /\
  parameters (netD (exec body s)) = parameters (netD (exec upd s)) /\
  optimizerD (exec body s) = optimizerD (exec upd s) /\
  match grad (zero_grad E (netD (exec gen s))) with
  | None => True
  | Some g => Forall (fun x => x = 0%R) g
  end.
Proof.
  cbv zeta.
  destruct (update_G_network_netD fk label s) as (Hp & Ho & Hg).
  destruct (update_G_network_netG fk label s) as (HG & HoG).
  destruct (loop_body_exec epoch len i data s) as (fk' & label' & line & Hbody).
  destruct (update_G_network_netD fk' label'
              (exec (update_D_network E opt real_label fake_label data) s))
    as (Hp' & Ho' & _).
  rewrite (emits_new_events _ _ _ (update_G_network_emits fk label s)).
  split; [exact Hp|]. split; [exact Ho|].
  split; [apply errG_reaches_D|]. split; [exact Hg|].
  split; [reflexivity|]. split; [reflexivity|].
  split; [exact HG|]. split; [exact HoG|].
  split; [|split].
  - rewrite Hbody, snapshot_netD, logging_info_netD. exact Hp'.
  - rewrite Hbody, snapshot_optimizerD, logging_info_optimizerD. exact Ho'.
  - apply zero_grad_cleared.
Qed.

(** *** The losses of one batch *)

Lemma D_scores_length (D : Discriminator) (th b : vec) (x : batch) :
  length (D_scores D th b x) = length x.
Proof. unfold D_scores. now rewrite length_map, length_seq. Qed.

Lemma G_forward_length (G : Generator) (th b : vec) (z : batch) :
  length (G_forward G th b z) = length z.
Proof. unfold G_forward. now rewrite length_map, length_seq. Qed.

Lemma randn_length (r : RNG E) (n k : nat) : length (fst (randn E r n k)) = n.
Proof. unfold randn. cbn. now rewrite length_map, length_seq. Qed.

Lemma fill_full (n : nat) (a b : R) : fill_ (full n a) b = full n b.
Proof.
  unfold fill_, full. induction n as [|n IH]; simpl; [reflexivity|].
  now rewrite IH.
Qed.

Lemma errD_real_value (data : batch * vec) (s : state E) :
  value (errD_real (eval (train_with_real E opt real_label data) s))
  = if sagan opt then hinge_real_loss (netD_now E opt s (fst data))
    else criterion_value (netD_now E opt s (fst data))
                         (full (length (fst data)) real_label).
Proof.
  unfold eval, train_with_real, netD_now. cbn -[D_scores].
  destruct (sagan opt); cbn -[D_scores]; [|reflexivity].
  unfold hinge_real_loss. now rewrite map_map.
Qed.

Lemma errD_fake_value (batch_size : nat) (label : vec) (s : state E) :
  let f := eval (train_with_fake E opt fake_label batch_size label) s in
  value (errD_fake f)
  = if sagan opt then hinge_fake_loss (netD_now E opt s (value (detach (fake f))))
    else criterion_value (netD_now E opt s (value (detach (fake f))))
                         (fill_ label fake_label).
Proof.
  cbv zeta. unfold eval, train_with_fake, netD_now. cbn -[D_scores G_forward randn].
  destruct (sagan opt); cbn -[D_scores G_forward randn]; [|reflexivity].
  unfold hinge_fake_loss. now rewrite map_map.
Qed.

Lemma errG_value (fk : tensor batch) (label : vec) (s : state E) :
  value (errG (eval (update_G_network E opt real_label fk label) s))
  = if sagan opt then hinge_gen_loss (netD_now E opt s (value fk))
    else criterion_value (netD_now E opt s (value fk)) (fill_ label real_label).
Proof.
  unfold eval, update_G_network, netD_now. cbn -[D_scores].
  destruct (sagan opt); reflexivity.
Qed.

(** The local variables of a batch, part by part. *)
Lemma loop_body_locals (epoch len i : nat) (data : batch * vec) (s : state E) :
  let L := eval (loop_body E opt real_label fake_label epoch len i data) s in
  let real := train_with_real E opt real_label data in
  let upd := update_D_network E opt real_label fake_label data in
  loc_real L = eval real s /\
  loc_fake L
    = eval (train_with_fake E opt fake_label (length (fst data)) (label_real (loc_real L)))
           (exec real s) /\
  loc_gen L
    = eval (update_G_network E opt real_label (fake (loc_fake L))
              (label_fake (loc_fake L)))
           (exec upd s).
Proof.
  cbv zeta. unfold loop_body, update_D_network, accumulate_D.
  rewrite !eval_bind. cbv beta zeta.
  split; [|split]; reflexivity.
Qed.

(** C5. In the hinge (self-attention) variant the three losses of a batch
    are: [mean (relu (1 - D(real)))] for the discriminator on the real
    batch, [mean (relu (1 + D(fake.detach())))] for the discriminator on the
    generated batch, and [- mean (D(fake))] for the generator, where [D] is
    the discriminator as it stands when the loss is computed: before its
    step for the first two, after it for the third. *)
Theorem hinge_variant_losses (epoch len i : nat) (data : batch * vec) (s : state E) :
  sagan opt = true ->
  let L := eval (loop_body E opt real_label fake_label epoch len i data) s in
  let s_real := exec (train_with_real E opt real_label data) s in
  let s_upd := exec (update_D_network E opt real_label fake_label data) s in
  value (errD_real (loc_real L)) = hinge_real_loss (netD_now E opt s (fst data)) /\
  value (errD_fake (loc_fake L))
    = hinge_fake_loss (netD_now E opt s_real (value (detach (fake (loc_fake L))))) /\
  value (errG (loc_gen L))
    = hinge_gen_loss (netD_now E opt s_upd (value (fake (loc_fake L)))).
Proof.
  intros Hsagan. cbv zeta.
  destruct (loop_body_locals epoch len i data s) as (Hr & Hf & Hg).
  cbv zeta in Hr, Hf, Hg.
  split; [|split].
  - rewrite Hr, errD_real_value, Hsagan. reflexivity.
  - pose proof (errD_fake_value (length (fst data))
                  (label_real (loc_real
                     (eval (loop_body E opt real_label fake_label epoch len i data) s)))
                  (exec (train_with_real E opt real_label data) s)) as H.
    cbv zeta in H. rewrite <- Hf in H. rewrite H, Hsagan. reflexivity.
  - pose proof (errG_value
                  (fake (loc_fake
                     (eval (loop_body E opt real_label fake_label epoch len i data) s)))
                  (label_fake (loc_fake
                     (eval (loop_body E opt real_label fake_label epoch len i data) s)))
                  (exec (update_D_network E opt real_label fake_label data) s)) as H.
    rewrite <- Hg in H. rewrite H, Hsagan. reflexivity.
Qed.

(** *** The fixed noise through the loops *)

Section FixedNoise.

Variable P : batch -> event -> Prop.

Lemma keeps_bind {A B : Type} (m : M E A) (k : A -> M E B) :
  keeps_fixed_noise P m -> (forall a, keeps_fixed_noise P (k a)) ->
  keeps_fixed_noise P (bind m k).
Proof.
  intros Hm Hk s.
  destruct (Hm s) as (Hz & evs & Hev & HP).
  destruct (Hk (eval m s) (exec m s)) as (Hz' & evs' & Hev' & HP').
  split.
  - rewrite exec_bind, Hz'. exact Hz.
  - exists (evs ++ evs'). split.
    + now apply emits_bind.
    + apply Forall_app. split; [exact HP|]. now rewrite <- Hz.
Qed.

Lemma keeps_ret {A : Type} (a : A) : keeps_fixed_noise P (@ret E A a).
Proof.
  intros s. split; [reflexivity|]. exists []. split; [apply emits_ret|constructor].
Qed.

(** A computation that adds one event to the trace, or none, and leaves
    the fixed noise alone. *)
Lemma keeps_one {A : Type} (m : M E A) (e : state E -> event) :
  (forall s, fixed_noise (exec m s) = fixed_noise s) ->
  (forall s, trace (exec m s) = trace s ++ [e s]) ->
  (forall s, P (fixed_noise s) (e s)) ->
  keeps_fixed_noise P m.
Proof.
  intros Hz He HP s. split; [apply Hz|].
  exists [e s]. split; [apply He|]. constructor; [apply HP|constructor].
Qed.

Lemma keeps_silent {A : Type} (m : M E A) :
  (forall s, fixed_noise (exec m s) = fixed_noise s) ->
  (forall s, trace (exec m s) = trace s) ->
  keeps_fixed_noise P m.
Proof.
  intros Hz He s. split; [apply Hz|].
  exists []. split; [|constructor].
  unfold emits. rewrite He. now rewrite app_nil_r.
Qed.

End FixedNoise.

Lemma update_D_network_fixed_noise (data : batch * vec) (s : state E) :
  fixed_noise (exec (update_D_network E opt real_label fake_label data) s)
  = fixed_noise s.
Proof. unfold exec, update_D_network, accumulate_D. cbn. reflexivity. Qed.

Lemma update_G_network_fixed_noise (fk : tensor batch) (label : vec) (s : state E) :
  fixed_noise (exec (update_G_network E opt real_label fk label) s) = fixed_noise s.
Proof. reflexivity. Qed.

Lemma logging_info_fixed_noise (l : log_line) (s : state E) :
  fixed_noise (exec (logging_info E opt l) s) = fixed_noise s.
Proof. reflexivity. Qed.

Lemma snapshot_fixed_noise (epoch i : nat) (real_cpu : batch) (s : state E) :
  fixed_noise (exec (snapshot E opt epoch i real_cpu) s) = fixed_noise s.
Proof. unfold exec, snapshot. destruct (snapshot_due i); reflexivity. Qed.

Lemma snapshot_events_from (epoch i : nat) (real_cpu : batch) (m : module_state)
    (z : batch) :
  Forall (snapshots_from (netG_class E opt) (outf opt) z)
    (snapshot_events (netG_class E opt) (outf opt) epoch i real_cpu m z).
Proof.
  unfold snapshot_events. destruct (snapshot_due i); [|constructor].
  constructor; [now left|].
  constructor; [exact I|].
  constructor; [|constructor].
  right. exists (parameters m), (buffers m). reflexivity.
Qed.

Lemma loop_body_keeps (epoch len i : nat) (data : batch * vec) :
  keeps_fixed_noise (snapshots_from (netG_class E opt) (outf opt))
    (loop_body E opt real_label fake_label epoch len i data).
Proof.
  intros s. split.
  - destruct (loop_body_exec epoch len i data s) as (fk & label & line & ->).
    rewrite snapshot_fixed_noise, logging_info_fixed_noise.
    rewrite update_G_network_fixed_noise. apply update_D_network_fixed_noise.
  - destruct (loop_body_emits epoch len i data s) as [m Hm].
    eexists. split; [exact Hm|].
    apply Forall_app. split.
    + unfold batch_events. repeat constructor.
    + apply snapshot_events_from.
Qed.

Lemma for_batches_keeps (epoch len : nat) (ds : list (batch * vec)) (i : nat) :
  keeps_fixed_noise (snapshots_from (netG_class E opt) (outf opt))
    (for_batches E opt real_label fake_label epoch len i ds).
Proof.
  revert i. induction ds as [|d ds IH]; intros i; cbn [for_batches].
  - apply keeps_ret.
  - apply keeps_bind; [apply loop_body_keeps|]. intros _. apply IH.
Qed.

Lemma epoch_body_keeps (epoch : nat) :
  keeps_fixed_noise (snapshots_from (netG_class E opt) (outf opt))
    (epoch_body E opt real_label fake_label epoch).
Proof.
  unfold epoch_body.
  apply keeps_bind; [apply keeps_silent; reflexivity|]. intros ds.
  apply keeps_bind; [apply for_batches_keeps|]. intros _.
  apply keeps_bind; [apply keeps_silent; reflexivity|]. intros _.
  apply keeps_silent; reflexivity.
Qed.

Lemma for_epochs_keeps (epochs : list nat) :
  keeps_fixed_noise (snapshots_from (netG_class E opt) (outf opt))
    (for_epochs E opt real_label fake_label epochs).
Proof.
  induction epochs as [|e es IH]; cbn [for_epochs].
  - apply keeps_ret.
  - apply keeps_bind; [apply epoch_body_keeps|]. intros _. exact IH.
Qed.

Lemma setup_emits (s : state E) :
  emits (setup E opt) s [EvRandn 64 (nz opt)].
Proof. reflexivity. Qed.

(** C9. The fixed noise is the batch of 64 latent vectors [setup] draws,
    with the one call to [torch.randn] it makes, before the loops start.
    No part of the loops assigns it: it is the same after any number of
    epochs.  Every image the loops save, other than the grid of real
    samples, is the generator's output on that one batch, and each
    snapshot writes the generator's output on it to its fake-samples
    file. *)
Theorem fixed_noise_constant (s : state E) :
  let z := fst (randn E (rng s) 64 (nz opt)) in
  let G := netG_class E opt in
  let run := script E opt real_label fake_label in
  length z = 64 /\
  fixed_noise (exec (setup E opt) s) = z /\
  new_events (setup E opt) s = [EvRandn 64 (nz opt)] /\
  (forall (epochs : list nat) (s' : state E),
     fixed_noise (exec (for_epochs E opt real_label fake_label epochs) s')
     = fixed_noise s' /\
     Forall (snapshots_from G (outf opt) (fixed_noise s'))
       (new_events (for_epochs E opt real_label fake_label epochs) s')) /\
  fixed_noise (exec run s) = z /\
  Forall (snapshots_from G (outf opt) z) (new_events run s) /\
  (forall (epoch i : nat) (real_cpu : batch) (s' : state E),
     files (exec (snapshot E opt epoch i real_cpu) s') !! fake_samples_path (outf opt) epoch
     = if snapshot_due i then
         Some (ImageFile (G_forward G (parameters (netG s')) (buffers (netG s'))
                            (fixed_noise s')) true)
       else files s' !! fake_samples_path (outf opt) epoch).
Proof.
  cbv zeta.
  split; [apply randn_length|]. split; [reflexivity|].
  split; [apply emits_new_events, setup_emits|].
  split.
  { intros epochs s'.
    destruct (for_epochs_keeps epochs s') as (Hz & evs & Hev & HP).
    split; [exact Hz|]. now rewrite (emits_new_events _ _ _ Hev). }
  destruct (for_epochs_keeps (seq 0 (niter opt)) (exec (setup E opt) s))
    as (Hz & evs & Hev & HP).
  split; [|split].
  - unfold script. rewrite exec_bind. exact Hz.
  - assert (Hrun : emits (script E opt real_label fake_label) s
                     ([EvRandn 64 (nz opt)] ++ evs)).
    { unfold script. apply emits_bind; [apply setup_emits|exact Hev]. }
    rewrite (emits_new_events _ _ _ Hrun).
    apply Forall_app. split; [repeat constructor|exact HP].
  - intros epoch i real_cpu s'. unfold exec, snapshot.
    destruct (snapshot_due i); [|reflexivity].
    cbn. apply lookup_insert_eq.
Qed.

(** C7 (amended). A snapshot is due exactly at the batch indices that are
    multiples of 100, index 0 included.  A due snapshot writes the first 64
    real images of the batch to [<outf>/real_samples.png], and then the
    generator's output on the fixed noise to
    [<outf>/fake_samples_epoch_<epoch, three digits>.png], both with
    [normalize=True]; a batch that is not due writes nothing.  The first
    name is the same at every snapshot, and the second depends on the
    epoch only: snapshots of different epochs have different fake-samples
    files, and the two files of one snapshot differ. *)
Theorem snapshot_files (epoch i : nat) (real_cpu : batch) (s : state E) :
  let G := netG_class E opt in
  (snapshot_due i = true <-> i mod 100 = 0) /\
  snapshot_due 0 = true /\
  files (exec (snapshot E opt epoch i real_cpu) s)
    = (if snapshot_due i then
         <[fake_samples_path (outf opt) epoch :=
             ImageFile (G_forward G (parameters (netG s)) (buffers (netG s))
                          (fixed_noise s)) true]>
           (<[real_samples_path (outf opt) := ImageFile (firstn 64 real_cpu) true]>
              (files s))
       else files s) /\
  (forall e1 i1 e2 i2 : nat,
     fst (snapshot_paths (outf opt) e1 i1) = fst (snapshot_paths (outf opt) e2 i2)) /\
  (forall e i1 i2 : nat,
     snd (snapshot_paths (outf opt) e i1) = snd (snapshot_paths (outf opt) e i2)) /\
  (forall e1 i1 e2 i2 : nat,
     snd (snapshot_paths (outf opt) e1 i1) = snd (snapshot_paths (outf opt) e2 i2) ->
     e1 = e2) /\
  (forall e1 i1 e2 i2 : nat,
     fst (snapshot_paths (outf opt) e1 i1) <> snd (snapshot_paths (outf opt) e2 i2)).
Proof.
  cbv zeta. split; [|split; [|split; [|split; [|split; [|split]]]]].
  - unfold snapshot_due. apply Nat.eqb_eq.
  - reflexivity.
  - unfold exec, snapshot. destruct (snapshot_due i); reflexivity.
  - reflexivity.
  - reflexivity.
  - intros e1 i1 e2 i2 H. cbn in H. now apply PathFacts.fake_samples_path_inj in H.
  - intros e1 i1 e2 i2. cbn. apply PathFacts.real_fake_paths_differ.
Qed.

End TrainingStep.

(** ** The two variants of the objective *)

Section Variants.

Variable E : torch_env.
Variable opt : options.

Lemma fake_length (fl : R) (batch_size : nat) (label : vec) (s : state E) :
  length (value (fake (eval (train_with_fake E opt fl batch_size label) s)))
  = batch_size.
Proof.
  unfold eval, train_with_fake. cbn -[G_forward randn].
  rewrite G_forward_length. apply randn_length.
Qed.

Lemma labels_of_batch (rl fl : R) (epoch len i : nat) (data : batch * vec)
    (s : state E) :
  let L := eval (loop_body E opt rl fl epoch len i data) s in
  label_real (loc_real L) = full (length (fst data)) rl /\
  label_fake (loc_fake L) = full (length (fst data)) fl /\
  label_gen (loc_gen L) = full (length (fst data)) rl /\
  length (value (fake (loc_fake L))) = length (fst data).
Proof.
  cbv zeta.
  destruct (loop_body_locals E opt rl fl epoch len i data s) as (Hr & Hf & Hg).
  cbv zeta in Hr, Hf, Hg.
  assert (H1 : label_real (loc_real
             (eval (loop_body E opt rl fl epoch len i data) s))
           = full (length (fst data)) rl) by (rewrite Hr; reflexivity).
  assert (H2 : label_fake (loc_fake
             (eval (loop_body E opt rl fl epoch len i data) s))
           = full (length (fst data)) fl).
  { rewrite Hf.
    change (label_fake (eval (train_with_fake E opt fl ?n ?l) ?t)) with (fill_ l fl).
    rewrite H1. apply fill_full. }
  split; [exact H1|]. split; [exact H2|]. split.
  - rewrite Hg.
    change (label_gen (eval (update_G_network E opt rl ?f ?l) ?t)) with (fill_ l rl).
    rewrite H2. apply fill_full.
  - rewrite Hf. apply fake_length.
Qed.

(** C6. In the cross-entropy variant, with the labels of lines 115-116
    (1 for real, 0 for fake), the three losses of a batch are the
    criterion [nn.BCEWithLogitsLoss()] applied to the raw scores of the
    discriminator and a label tensor of the same length filled with 1
    (real batch), 0 (detached fake batch) and 1 (fake batch, for the
    generator); each is the binary cross-entropy of the sigmoid of the
    scores against that constant, averaged over the batch. *)
Theorem cross_entropy_variant_losses (epoch len i : nat) (data : batch * vec)
    (s : state E) :
  sagan opt = false ->
  let L := eval (loop_body E opt 1 0 epoch len i data) s in
  let s_real := exec (train_with_real E opt 1 data) s in
  let s_upd := exec (update_D_network E opt 1 0 data) s in
  let d_real := netD_now E opt s (fst data) in
  let d_fake := netD_now E opt s_real (value (detach (fake (loc_fake L)))) in
  let d_gen := netD_now E opt s_upd (value (fake (loc_fake L))) in
  (value (errD_real (loc_real L)) = criterion_value d_real (full (length d_real) 1) /\
   value (errD_fake (loc_fake L)) = criterion_value d_fake (full (length d_fake) 0) /\
   value (errG (loc_gen L)) = criterion_value d_gen (full (length d_gen) 1)) /\
  (value (errD_real (loc_real L)) = BCE_of_logits 1 d_real /\
   value (errD_fake (loc_fake L)) = BCE_of_logits 0 d_fake /\
   value (errG (loc_gen L)) = BCE_of_logits 1 d_gen).
Proof.
  intros Hsagan. cbv zeta.
  destruct (loop_body_locals E opt 1 0 epoch len i data s) as (Hr & Hf & Hg).
  destruct (labels_of_batch 1 0 epoch len i data s) as (Lr & Lf & Lg & Hlen).
  cbv zeta in Hr, Hf, Hg, Lr, Lf, Lg, Hlen.
  set (L := eval (loop_body E opt 1 0 epoch len i data) s) in *.
  assert (H1 : value (errD_real (loc_real L))
               = criterion_value (netD_now E opt s (fst data))
                   (full (length (netD_now E opt s (fst data))) 1)).
  { rewrite Hr, errD_real_value, Hsagan.
    unfold netD_now. now rewrite D_scores_length. }
  assert (H2 : value (errD_fake (loc_fake L))
               = criterion_value
                   (netD_now E opt (exec (train_with_real E opt 1 data) s)
                      (value (detach (fake (loc_fake L)))))
                   (full (length
                      (netD_now E opt (exec (train_with_real E opt 1 data) s)
                         (value (detach (fake (loc_fake L)))))) 0)).
  { pose proof (errD_fake_value E opt 0 (length (fst data))
                  (label_real (loc_real L))
                  (exec (train_with_real E opt 1 data) s)) as H.
    cbv zeta in H. rewrite <- Hf in H. rewrite H, Hsagan.
    unfold netD_now. rewrite D_scores_length.
    change (value (detach (fake (loc_fake L)))) with (value (fake (loc_fake L))).
    rewrite Hlen, Lr. now rewrite fill_full. }
  assert (H3 : value (errG (loc_gen L))
               = criterion_value
                   (netD_now E opt (exec (update_D_network E opt 1 0 data) s)
                      (value (fake (loc_fake L))))
                   (full (length
                      (netD_now E opt (exec (update_D_network E opt 1 0 data) s)
                         (value (fake (loc_fake L))))) 1)).
  { pose proof (errG_value E opt 1 (fake (loc_fake L)) (label_fake (loc_fake L))
                  (exec (update_D_network E opt 1 0 data) s)) as H.
    rewrite <- Hg in H. rewrite H, Hsagan.
    unfold netD_now. rewrite D_scores_length, Hlen, Lf. now rewrite fill_full. }
  split; [split; [exact H1|split; [exact H2|exact H3]]|].
  unfold BCE_of_logits.
  split; [|split].
  - rewrite H1. apply LossFacts.criterion_value_full. reflexivity.
  - rewrite H2. apply LossFacts.criterion_value_full. reflexivity.
  - rewrite H3. apply LossFacts.criterion_value_full. reflexivity.
Qed.

(** *** The label tensor in the hinge variant *)

Lemma loop_body_labels (rl fl rl' fl' : R) (epoch len i : nat)
    (data : batch * vec) (s : state E) :
  sagan opt = true ->
  let body := loop_body E opt rl fl epoch len i data in
  let body' := loop_body E opt rl' fl' epoch len i data in
  exec body s = exec body' s /\
  errD_real (loc_real (eval body s)) = errD_real (loc_real (eval body' s)) /\
  errD_fake (loc_fake (eval body s)) = errD_fake (loc_fake (eval body' s)) /\
  errD (eval body s) = errD (eval body' s) /\
  errG (loc_gen (eval body s)) = errG (loc_gen (eval body' s)) /\
  fake (loc_fake (eval body s)) = fake (loc_fake (eval body' s)) /\
  (D_x (loc_real (eval body s)), D_G_z1 (loc_fake (eval body s)),
   D_G_z2 (loc_gen (eval body s)))
  = (D_x (loc_real (eval body' s)), D_G_z1 (loc_fake (eval body' s)),
     D_G_z2 (loc_gen (eval body' s))).
Proof.
  intros Hsagan. cbv zeta.
  unfold exec, eval, loop_body, update_D_network, accumulate_D,
    train_with_real, train_with_fake, update_G_network.
  rewrite !Hsagan. cbn -[snapshot].
  repeat split; reflexivity.
Qed.

Lemma for_batches_labels (rl fl rl' fl' : R) (epoch len : nat)
    (ds : list (batch * vec)) (i : nat) (s : state E) :
  sagan opt = true ->
  exec (for_batches E opt rl fl epoch len i ds) s
  = exec (for_batches E opt rl' fl' epoch len i ds) s.
Proof.
  intros Hsagan. revert i s.
  induction ds as [|d ds IH]; intros i s; cbn [for_batches]; [reflexivity|].
  rewrite !exec_bind.
  destruct (loop_body_labels rl fl rl' fl' epoch len i d s Hsagan) as (-> & _).
  apply IH.
Qed.

Lemma for_epochs_labels (rl fl rl' fl' : R) (epochs : list nat) (s : state E) :
  sagan opt = true ->
  exec (for_epochs E opt rl fl epochs) s = exec (for_epochs E opt rl' fl' epochs) s.
Proof.
  intros Hsagan. revert s.
  induction epochs as [|e es IH]; intros s; cbn [for_epochs]; [reflexivity|].
  rewrite !exec_bind.
  assert (He : exec (epoch_body E opt rl fl e) s = exec (epoch_body E opt rl' fl' e) s).
  { unfold epoch_body. rewrite !exec_bind.
    now rewrite (for_batches_labels rl fl rl' fl' e _ _ 0 _ Hsagan). }
  rewrite He. apply IH.
Qed.

(** C8. In the hinge variant the label tensor is written and never read:
    whatever the two values it is filled with, a batch ends in the same
    state (both networks with their gradients, both optimizers, the
    generator of random numbers, the files, the log with its metrics, the
    trace), computes the same three losses, the same reported sum, the
    same generated batch and the same three accuracy figures; and so does
    the whole run. *)
Theorem label_unused_in_hinge_variant (rl fl rl' fl' : R) (epoch len i : nat)
    (data : batch * vec) (s : state E) :
  sagan opt = true ->
  let body := loop_body E opt rl fl epoch len i data in
  let body' := loop_body E opt rl' fl' epoch len i data in
  exec body s = exec body' s /\
  errD_real (loc_real (eval body s)) = errD_real (loc_real (eval body' s)) /\
  errD_fake (loc_fake (eval body s)) = errD_fake (loc_fake (eval body' s)) /\
  errD (eval body s) = errD (eval body' s) /\
  errG (loc_gen (eval body s)) = errG (loc_gen (eval body' s)) /\
  fake (loc_fake (eval body s)) = fake (loc_fake (eval body' s)) /\
  (D_x (loc_real (eval body s)), D_G_z1 (loc_fake (eval body s)),
   D_G_z2 (loc_gen (eval body s)))
  = (D_x (loc_real (eval body' s)), D_G_z1 (loc_fake (eval body' s)),
     D_G_z2 (loc_gen (eval body' s))) /\
  exec (script E opt rl fl) s = exec (script E opt rl' fl') s.
Proof.
  intros Hsagan. cbv zeta.
  destruct (loop_body_labels rl fl rl' fl' epoch len i data s Hsagan)
    as (H1 & H2 & H3 & H4 & H5 & H6 & H7).
  repeat (split; [assumption|]).
  unfold script, training_loop. rewrite !exec_bind.
  now apply for_epochs_labels.
Qed.

End Variants.

(** ** On the small environment *)

(** C7 as the specification words it does not hold: the snapshots of
    batches 0 and 100 of epoch 0 are two snapshots of one run, and both
    write [out/real_samples.png] (and [out/fake_samples_epoch_000.png]). *)
Lemma snapshot_names_collide : ~ distinctly_named "out".
Proof.
  intros H.
  destruct (H 0 0 0 100 eq_refl eq_refl) as [Hreal _]; [discriminate|].
  apply Hreal. reflexivity.
Qed.

Example snapshot_paths_epoch_0 :
  snapshot_paths "out" 0 100
  = ("out/real_samples.png"%string, "out/fake_samples_epoch_000.png"%string).
Proof. reflexivity. Qed.

Example fake_samples_path_1234 :
  fake_samples_path "out" 1234 = "out/fake_samples_epoch_1234.png"%string.
Proof. reflexivity. Qed.

Lemma hinge_variant_losses_witness :
  sagan (Toy.opts true) = true /\
  let L := eval (loop_body Toy.env (Toy.opts true) 1 0 0 1 0 Toy.batch0) Toy.s0 in
  let s_real := exec (train_with_real Toy.env (Toy.opts true) 1 Toy.batch0) Toy.s0 in
  let s_upd := exec (update_D_network Toy.env (Toy.opts true) 1 0 Toy.batch0) Toy.s0 in
  value (errD_real (loc_real L))
    = hinge_real_loss (netD_now Toy.env (Toy.opts true) Toy.s0 (fst Toy.batch0)) /\
  value (errD_fake (loc_fake L))
    = hinge_fake_loss
        (netD_now Toy.env (Toy.opts true) s_real (value (detach (fake (loc_fake L))))) /\
  value (errG (loc_gen L))
    = hinge_gen_loss (netD_now Toy.env (Toy.opts true) s_upd (value (fake (loc_fake L)))).
Proof.
  split; [reflexivity|].
  exact (hinge_variant_losses Toy.env (Toy.opts true) 1 0 0 1 0 Toy.batch0 Toy.s0
           eq_refl).
Defined.

Lemma cross_entropy_variant_losses_witness :
  sagan (Toy.opts false) = false /\
  let L := eval (loop_body Toy.env (Toy.opts false) 1 0 0 1 0 Toy.batch0) Toy.s0 in
  let s_real := exec (train_with_real Toy.env (Toy.opts false) 1 Toy.batch0) Toy.s0 in
  let s_upd := exec (update_D_network Toy.env (Toy.opts false) 1 0 Toy.batch0) Toy.s0 in
  let d_real := netD_now Toy.env (Toy.opts false) Toy.s0 (fst Toy.batch0) in
  let d_fake :=
    netD_now Toy.env (Toy.opts false) s_real (value (detach (fake (loc_fake L)))) in
  let d_gen := netD_now Toy.env (Toy.opts false) s_upd (value (fake (loc_fake L))) in
  (value (errD_real (loc_real L)) = criterion_value d_real (full (length d_real) 1) /\
   value (errD_fake (loc_fake L)) = criterion_value d_fake (full (length d_fake) 0) /\
   value (errG (loc_gen L)) = criterion_value d_gen (full (length d_gen) 1)) /\
  (value (errD_real (loc_real L)) = BCE_of_logits 1 d_real /\
   value (errD_fake (loc_fake L)) = BCE_of_logits 0 d_fake /\
   value (errG (loc_gen L)) = BCE_of_logits 1 d_gen).
Proof.
  split; [reflexivity|].
  exact (cross_entropy_variant_losses Toy.env (Toy.opts false) 0 1 0 Toy.batch0 Toy.s0
           eq_refl).
Defined.

Lemma label_unused_in_hinge_variant_witness :
  sagan (Toy.opts true) = true /\
  exec (loop_body Toy.env (Toy.opts true) 1 0 0 1 0 Toy.batch0) Toy.s0
  = exec (loop_body Toy.env (Toy.opts true) 7 (-3) 0 1 0 Toy.batch0) Toy.s0 /\
  exec (script Toy.env (Toy.opts true) 1 0) Toy.s0
  = exec (script Toy.env (Toy.opts true) 7 (-3)) Toy.s0.
Proof.
  split; [reflexivity|].
  pose proof (label_unused_in_hinge_variant Toy.env (Toy.opts true)
                1%R 0%R 7%R (-3)%R 0 1 0 Toy.batch0 Toy.s0 eq_refl) as H.
  cbv zeta in H. split; [apply H|]. apply H.
Defined.

(** On the small environment: the discriminator scores the real batch
    [[1]; [-1]] as [1; -1], so its hinge loss on it is [(0 + 2) / 2]; the
    discriminator update leaves the generator without gradient, and the
    generator phase gives it one. *)
Example toy_errD_real :
  value (errD_real (loc_real
    (eval (loop_body Toy.env (Toy.opts true) 1 0 0 1 0 Toy.batch0) Toy.s0))) = 1%R.
Proof.
  destruct (loop_body_locals Toy.env (Toy.opts true) 1 0 0 1 0 Toy.batch0 Toy.s0)
    as (-> & _).
  rewrite errD_real_value. cbn [sagan Toy.opts].
  unfold hinge_real_loss, netD_now, D_scores, mean, relu, Rmax. cbn.
  repeat destruct (Rle_dec _ _); lra.
Qed.

Example toy_generator_gradient :
  let s_upd := exec (update_D_network Toy.env (Toy.opts true) 1 0 Toy.batch0) Toy.s0 in
  let s_end := exec (loop_body Toy.env (Toy.opts true) 1 0 0 1 0 Toy.batch0) Toy.s0 in
  grad (netG s_upd) = None /\ grad (netG s_end) <> None /\
  List.map fst (map_to_list (files s_end))
  ≡ₚ ["out/stdout.log"%string; "out/real_samples.png"%string;
      "out/fake_samples_epoch_000.png"%string].
Proof.
  cbv zeta. split; [reflexivity|]. split.
  - unfold exec. cbn. discriminate.
  - unfold exec. cbn -[map_to_list].
    rewrite map_to_list_insert by (now rewrite !lookup_insert_ne).
    rewrite map_to_list_insert by (now rewrite lookup_insert_ne).
    rewrite map_to_list_insert by reflexivity.
    rewrite map_to_list_empty. cbn. symmetry.
    apply (Permutation_rev ["out/stdout.log"%string; "out/real_samples.png"%string;
                            "out/fake_samples_epoch_000.png"%string]).
Qed.

(** On the small environment, hinge variant: the real batch contributes
    [1 / 2] to the gradient of the discriminator's parameter and the
    generated batch [2]; the step, plain gradient descent here, moves the
    parameter from 1 by the learning rate times their sum. *)
Example toy_discriminator_step :
  let acc := accumulate_D Toy.env (Toy.opts true) 1 0 Toy.batch0 in
  let upd := update_D_network Toy.env (Toy.opts true) 1 0 Toy.batch0 in
  grad (netD (exec acc Toy.s0)) = Some [(1 / 2 + 2)%R] /\
  parameters (netD (exec upd Toy.s0)) = [(1 - 4 / 10000 * (1 / 2 + 2))%R].
Proof.
  cbv zeta. unfold exec, update_D_network, accumulate_D, train_with_real, train_with_fake.
  cbn. unfold vadd, Toy.px, relu', lrD. cbn.
  destruct (Rlt_dec 0 (1 - 1 * 1)) as [H1|_]; [exfalso; lra|].
  destruct (Rlt_dec 0 (1 - 1 * -1)) as [_|H2]; [|exfalso; lra].
  destruct (Rlt_dec 0 (1 + 1 * (2 * 1))) as [_|H3]; [|exfalso; lra].
  split; repeat f_equal; lra.
Qed.

(** * Further properties of the script *)

(** ** Metrics and losses *)

Module MetricFacts.
Local Open Scope R_scope.

Lemma Rsum_bounds (v : vec) (lo hi : R) :
  Forall (fun x => lo <= x <= hi) v ->
  INR (length v) * lo <= Rsum v <= INR (length v) * hi.
Proof.
  induction 1 as [|x v Hx _ IH].
  - simpl. lra.
  - change (length (x :: v)) with (S (length v)). rewrite S_INR. simpl. lra.
Qed.

Lemma mean_bounds (v : vec) (lo hi : R) :
  v <> [] -> Forall (fun x => lo <= x <= hi) v -> lo <= mean v <= hi.
Proof.
  intros Hne H. pose proof (Rsum_bounds v lo hi H) as Hs.
  destruct v as [|x v]; [congruence|].
  pose proof (LossFacts.INR_length_pos x v) as Hpos.
  unfold mean. set (n := INR (length (x :: v))) in *.
  split.
  - apply Rmult_le_reg_r with n; [exact Hpos|].
    unfold Rdiv. rewrite Rmult_assoc, Rinv_l by lra. lra.
  - apply Rmult_le_reg_r with n; [exact Hpos|].
    unfold Rdiv. rewrite Rmult_assoc, Rinv_l by lra. lra.
Qed.

Lemma Rsum_nonneg (v : vec) : Forall (fun x => 0 <= x) v -> 0 <= Rsum v.
Proof. induction 1; simpl; lra. Qed.

Lemma mean_nonneg (v : vec) : Forall (fun x => 0 <= x) v -> 0 <= mean v.
Proof.
  intros H. pose proof (Rsum_nonneg v H) as Hs. unfold mean.
  destruct v as [|x v].
  - simpl. lra.
  - apply Rmult_le_pos; [exact Hs|].
    left. apply Rinv_0_lt_compat, LossFacts.INR_length_pos.
Qed.

Lemma mean_const (v : vec) (c : R) :
  v <> [] -> Forall (fun x => x = c) v -> mean v = c.
Proof.
  intros Hne H.
  assert (Hb : c <= mean v <= c).
  { apply mean_bounds; [exact Hne|].
    eapply List.Forall_impl; [|exact H]. simpl. intros x ->. lra. }
  lra.
Qed.

Lemma relu_nonneg (x : R) : 0 <= relu x.
Proof. unfold relu. apply Rmax_l. Qed.

Lemma softplus_pos (t : R) : 0 < ln (1 + exp t).
Proof.
  rewrite <- ln_1. apply ln_increasing; [lra|]. pose proof (exp_pos t). lra.
Qed.

Lemma softplus_shift (x : R) : x + ln (1 + exp (- x)) = ln (1 + exp x).
Proof.
  rewrite <- (ln_exp x) at 1. rewrite <- ln_mult.
  - f_equal. rewrite Rmult_plus_distr_l, <- exp_plus.
    replace (x + - x) with 0 by lra. rewrite exp_0. lra.
  - apply exp_pos.
  - pose proof (exp_pos (- x)). lra.
Qed.

Lemma bce_with_logits_nonneg (x y : R) : 0 <= y <= 1 -> 0 <= bce_with_logits x y.
Proof.
  intros Hy. rewrite LossFacts.bce_with_logits_softplus.
  pose proof (softplus_pos (- x)) as H1. pose proof (softplus_pos x) as H2.
  rewrite <- softplus_shift in H2. nra.
Qed.

Lemma criterion_value_nonneg (s : vec) (n : nat) (y : R) :
  0 <= y <= 1 -> 0 <= criterion_value s (full n y).
Proof.
  intros Hy. unfold criterion_value, full. apply mean_nonneg.
  revert n. induction s as [|x s IH]; intros [|n]; simpl; constructor.
  - now apply bce_with_logits_nonneg.
  - apply IH.
Qed.

Lemma hinge_nonneg (s : vec) : 0 <= hinge_real_loss s /\ 0 <= hinge_fake_loss s.
Proof.
  unfold hinge_real_loss, hinge_fake_loss.
  split; apply mean_nonneg; induction s; simpl; constructor;
    auto using relu_nonneg.
Qed.

End MetricFacts.

(** X1. The accuracy figures of the log ([D(x)], [D(G(z))]) are fractions:
    on a batch that is not empty the figure lies between 0 and 1; it is 1
    when every score is above 0.5 and 0 when none is, a score of exactly
    0.5 counting as not above. *)
Theorem accuracy_is_fraction (output : vec) :
  output <> [] ->
  (0 <= accuracy output <= 1)%R /\
  (Forall (fun x => (1 / 2 < x)%R) output -> accuracy output = 1%R) /\
  (Forall (fun x => (x <= 1 / 2)%R) output -> accuracy output = 0%R).
Proof.
  intros Hne. unfold accuracy.
  assert (Hne' : forall f : R -> R, map f output <> []).
  { intros f. destruct output; [congruence|discriminate]. }
  split; [|split].
  - apply MetricFacts.mean_bounds; [apply Hne'|].
    apply List.Forall_map, List.Forall_forall. intros x _.
    destruct (Rlt_dec (1 / 2) x); lra.
  - intros H. apply MetricFacts.mean_const; [apply Hne'|].
    apply List.Forall_map. eapply List.Forall_impl; [|exact H]. simpl. intros x Hx.
    destruct (Rlt_dec (1 / 2) x); [reflexivity|lra].
  - intros H. apply MetricFacts.mean_const; [apply Hne'|].
    apply List.Forall_map. eapply List.Forall_impl; [|exact H]. simpl. intros x Hx.
    destruct (Rlt_dec (1 / 2) x); [lra|reflexivity].
Qed.

Lemma accuracy_is_fraction_witness :
  [1; 1 / 2; 0]%R <> [] /\ (0 <= accuracy [1; 1 / 2; 0] <= 1)%R.
Proof.
  split; [discriminate|].
  apply (accuracy_is_fraction [1; 1 / 2; 0]%R). discriminate.
Defined.

(** X2. The generated batch couples the two players in opposite
    directions, in both variants.  When the scores of the generated
    batch go up, the discriminator's loss on it does not go down (hinge:
    [mean (relu (1 + s))], which is 0 once every score is at most -1) or
    strictly goes up (cross-entropy against 0), and the generator's loss
    strictly goes down (hinge: [- mean s]). *)
Theorem fake_losses_monotone :
  (forall s s' : vec, Forall2 Rle s s' -> (hinge_fake_loss s <= hinge_fake_loss s')%R) /\
  (forall s : vec, Forall (fun x => (x <= -1)%R) s -> hinge_fake_loss s = 0%R) /\
  (forall s s' : vec, Forall2 Rlt s s' -> s <> [] ->
     (hinge_gen_loss s' < hinge_gen_loss s)%R) /\
  (forall s s' : vec, Forall2 Rlt s s' -> s <> [] ->
     (criterion_value s (full (length s) 0) < criterion_value s' (full (length s') 0))%R).
Proof.
  split; [|split; [|split]].
  - intros s s' H. unfold hinge_fake_loss. apply LossFacts.mean_mono.
    induction H as [|x y a b Hxy _ IH]; simpl; constructor; [|exact IH].
    apply LossFacts.relu_mono. lra.
  - intros s H. unfold hinge_fake_loss. apply LossFacts.mean_zero.
    induction H as [|x a Hx _ IH]; simpl; constructor; [|exact IH].
    apply LossFacts.relu_nonpos. lra.
  - intros s s' H Hne. unfold hinge_gen_loss.
    pose proof (LossFacts.mean_strict s s' H Hne). lra.
  - intros s s' H Hne. unfold criterion_value, full.
    rewrite !(LossFacts.zip_with_full _ _ _ _ eq_refl).
    apply LossFacts.mean_strict.
    + clear Hne.
      induction H as [|x y a b Hxy _ IH]; simpl; constructor; [|exact IH].
      rewrite !LossFacts.bce_with_logits_softplus.
      assert (Hd : (ln (1 + exp (- - x)) < ln (1 + exp (- - y)))%R).
      { apply ln_increasing.
        - pose proof (exp_pos (- - x)). lra.
        - apply Rplus_lt_compat_l, exp_increasing. lra. }
      replace (- - x)%R with x in Hd by lra.
      replace (- - y)%R with y in Hd by lra.
      rewrite <- (MetricFacts.softplus_shift x), <- (MetricFacts.softplus_shift y) in Hd.
      lra.
    + destruct H; [congruence|discriminate].
Qed.

(** ** Composition of computations *)

Section Establishes.

Variable E : torch_env.
Variable R : state E -> state E -> Prop.
Hypothesis R_refl : forall s, R s s.
Hypothesis R_trans : forall s1 s2 s3, R s1 s2 -> R s2 s3 -> R s1 s3.

Lemma establishes_ret {A : Type} (a : A) : establishes R (@ret E A a).
Proof. intros s. apply R_refl. Qed.

Lemma establishes_bind {A B : Type} (m : M E A) (k : A -> M E B) :
  establishes R m -> (forall a, establishes R (k a)) -> establishes R (bind m k).
Proof.
  intros Hm Hk s. rewrite exec_bind.
  eapply R_trans; [apply Hm|apply Hk].
Qed.

End Establishes.

Section Counts.

Variable E : torch_env.
Variable f : event -> bool.

Lemma counts_ret {A : Type} (a : A) : counts f 0 (@ret E A a).
Proof. intros s. exists []. split; [apply emits_ret|reflexivity]. Qed.

Lemma counts_bind {A B : Type} (m : M E A) (k : A -> M E B) (c d : nat) :
  counts f c m -> (forall a, counts f d (k a)) -> counts f (c + d) (bind m k).
Proof.
  intros Hm Hk s.
  destruct (Hm s) as (evs & Hev & Hc).
  destruct (Hk (eval m s) (exec m s)) as (evs' & Hev' & Hd).
  exists (evs ++ evs'). split; [now apply emits_bind|].
  rewrite List.filter_app, length_app. now rewrite Hc, Hd.
Qed.

Lemma counts_silent {A : Type} (m : M E A) :
  (forall s, trace (exec m s) = trace s) -> counts f 0 m.
Proof.
  intros H s. exists []. split; [|reflexivity].
  unfold emits. rewrite H. now rewrite app_nil_r.
Qed.

Lemma counts_new_events {A : Type} (m : M E A) (c : nat) (s : state E) :
  counts f c m -> length (List.filter f (new_events m s)) = c.
Proof.
  intros H. destruct (H s) as (evs & Hev & Hc).
  now rewrite (emits_new_events _ _ _ _ Hev).
Qed.

End Counts.

(** ** Artifact names *)

Module ArtifactNames.

Lemma fmt_d_inj (a b : nat) : fmt_d a = fmt_d b -> a = b.
Proof.
  intros H. apply (f_equal parse_d) in H.
  rewrite !PathFacts.parse_fmt_d in H. congruence.
Qed.

Lemma netG_path_inj (outf : string) (e1 e2 : nat) :
  netG_path outf e1 = netG_path outf e2 -> e1 = e2.
Proof.
  unfold netG_path. intros H.
  apply String.app_inj, String.app_inj, PathFacts.append_inj_r in H.
  now apply fmt_d_inj.
Qed.

Lemma netD_path_inj (outf : string) (e1 e2 : nat) :
  netD_path outf e1 = netD_path outf e2 -> e1 = e2.
Proof.
  unfold netD_path. intros H.
  apply String.app_inj, String.app_inj, PathFacts.append_inj_r in H.
  now apply fmt_d_inj.
Qed.

(** The four kinds of names differ in the first letters after [outf/]. *)
Lemma kinds_differ (outf : string) (e e' : nat) :
  netG_path outf e <> netD_path outf e' /\
  netG_path outf e <> real_samples_path outf /\
  netG_path outf e <> fake_samples_path outf e' /\
  netD_path outf e <> real_samples_path outf /\
  netD_path outf e <> fake_samples_path outf e'.
Proof.
  unfold netG_path, netD_path, real_samples_path, fake_samples_path.
  repeat split; intros H; apply String.app_inj in H; discriminate H.
Qed.


(** The name of the log file: [outf] and then [stdout.log], with a slash
    between them unless [outf] is empty or ends with one. *)
Lemma log_path_cases (outf : string) :
  stdout_log_path outf = outf +:+ "stdout.log" \/
  stdout_log_path outf = outf +:+ "/stdout.log".
Proof.
  unfold stdout_log_path, os_path_join.
  change (String.prefix "/" "stdout.log") with false. cbv iota.
  destruct (String.eqb outf "" || ends_with_slash outf)%bool; [left|right]; reflexivity.
Qed.

(** The log file is none of the artifacts. *)
Lemma log_not_artifact (outf : string) (es : list nat) :
  ~ artifact_path outf es (stdout_log_path outf).
Proof.
  unfold artifact_path, real_samples_path, fake_samples_path, netG_path, netD_path.
  intros [H|(e & _ & [H|[H|H]])];
    destruct (log_path_cases outf) as [K|K]; rewrite K in H;
    apply String.app_inj in H; discriminate H.
Qed.


End ArtifactNames.

(** ** The files of a run *)

Section RunFiles.

Variable E : torch_env.
Variable opt : options.
Variables real_label fake_label : R.

Lemma only_writes_refl (W : string -> Prop) (s : state E) : only_writes W s s.
Proof. intros p _. reflexivity. Qed.

Lemma only_writes_trans (W : string -> Prop) (s1 s2 s3 : state E) :
  only_writes W s1 s2 -> only_writes W s2 s3 -> only_writes W s1 s3.
Proof. intros H1 H2 p Hp. now rewrite (H2 p Hp), (H1 p Hp). Qed.

Lemma keeps_files_refl (s : state E) : keeps_files s s.
Proof. intros p H. exact H. Qed.

Lemma keeps_files_trans (s1 s2 s3 : state E) :
  keeps_files s1 s2 -> keeps_files s2 s3 -> keeps_files s1 s3.
Proof. intros H1 H2 p Hp. apply H2, H1, Hp. Qed.

Lemma update_D_network_files (data : batch * vec) (s : state E) :
  files (exec (update_D_network E opt real_label fake_label data) s) = files s.
Proof. unfold exec, update_D_network, accumulate_D. cbn. reflexivity. Qed.

Lemma update_G_network_files (fk : tensor batch) (label : vec) (s : state E) :
  files (exec (update_G_network E opt real_label fk label) s) = files s.
Proof. reflexivity. Qed.

Lemma logging_info_files (l : log_line) (s : state E) :
  files (exec (logging_info E opt l) s)
  = <[stdout_log_path (outf opt) :=
        append_record (files s !! stdout_log_path (outf opt)) l]> (files s).
Proof. reflexivity. Qed.

Lemma snapshot_files_eq (epoch i : nat) (real_cpu : batch) (s : state E) :
  files (exec (snapshot E opt epoch i real_cpu) s)
  = if snapshot_due i then
      <[fake_samples_path (outf opt) epoch :=
          ImageFile (G_forward (netG_class E opt) (parameters (netG s))
                       (buffers (netG s)) (fixed_noise s)) true]>
        (<[real_samples_path (outf opt) := ImageFile (firstn 64 real_cpu) true]>
           (files s))
    else files s.
Proof. unfold exec, snapshot. destruct (snapshot_due i); reflexivity. Qed.

(** The files after a batch: those before it, the log file with the
    record of the batch, and the snapshot if one is due. *)
Lemma loop_body_files (epoch len i : nat) (data : batch * vec) (s : state E) :
  exists (imgs : batch) (logged : artifact),
    files (exec (loop_body E opt real_label fake_label epoch len i data) s)
    = if snapshot_due i then
        <[fake_samples_path (outf opt) epoch := ImageFile imgs true]>
          (<[real_samples_path (outf opt) := ImageFile (firstn 64 (fst data)) true]>
             (<[stdout_log_path (outf opt) := logged]> (files s)))
      else <[stdout_log_path (outf opt) := logged]> (files s).
Proof.
  destruct (loop_body_exec E opt real_label fake_label epoch len i data s)
    as (fk & label & line & ->).
  do 2 eexists. rewrite snapshot_files_eq.
  rewrite logging_info_files, update_G_network_files, update_D_network_files.
  reflexivity.
Qed.

Lemma torch_save_files (n : net_id) (path : string) (s : state E) :
  files (exec (torch_save E n path) s)
  = <[path := StateDict (parameters (match n with NetD => netD s | NetG => netG s end))
                        (buffers (match n with NetD => netD s | NetG => netG s end))]>
      (files s).
Proof. reflexivity. Qed.

Lemma only_writes_mono (W W' : string -> Prop) (s s' : state E) :
  (forall p, W p -> W' p) -> only_writes W s s' -> only_writes W' s s'.
Proof. intros HW H p Hp. apply H. intros Hw. apply Hp, HW, Hw. Qed.

Lemma only_writes_insert (W : string -> Prop) (p : string) (a : artifact)
    (s s' : state E) :
  W p -> files s' = <[p := a]> (files s) -> only_writes W s s'.
Proof.
  intros Hp Hf q Hq. rewrite Hf. apply lookup_insert_ne. intros ->. now apply Hq.
Qed.

Lemma keeps_files_insert (p : string) (a : artifact) (s s' : state E) :
  files s' = <[p := a]> (files s) -> keeps_files s s'.
Proof.
  intros Hf q Hq. rewrite Hf. apply lookup_insert_is_Some'. now right.
Qed.

Lemma keeps_files_same (s s' : state E) : files s' = files s -> keeps_files s s'.
Proof. intros Hf q Hq. now rewrite Hf. Qed.

Lemma artifact_path_mono (o : string) (es es' : list nat) (p : string) :
  (forall e, In e es -> In e es') -> artifact_path o es p -> artifact_path o es' p.
Proof.
  intros Hsub [->|(e & He & Hp)]; [now left|].
  right. exists e. split; [now apply Hsub|exact Hp].
Qed.

Lemma loop_body_only_writes (epoch len i : nat) (data : batch * vec) :
  establishes (only_writes (written_path (outf opt) [epoch]))
    (loop_body E opt real_label fake_label epoch len i data).
Proof.
  intros s p Hp.
  destruct (loop_body_files epoch len i data s) as (imgs & logged & ->).
  assert (Hlog : stdout_log_path (outf opt) <> p).
  { intros <-. apply Hp. now left. }
  destruct (snapshot_due i); [|now apply lookup_insert_ne].
  rewrite !lookup_insert_ne; [reflexivity|exact Hlog| |].
  - intros <-. apply Hp. right. now left.
  - intros <-. apply Hp. right. right. exists epoch. split; [now left|now left].
Qed.

Lemma loop_body_keeps_files (epoch len i : nat) (data : batch * vec) :
  establishes keeps_files (loop_body E opt real_label fake_label epoch len i data).
Proof.
  intros s p Hp.
  destruct (loop_body_files epoch len i data s) as (imgs & logged & ->).
  assert (Hl : is_Some (<[stdout_log_path (outf opt) := logged]> (files s) !! p)).
  { apply lookup_insert_is_Some'. now right. }
  destruct (snapshot_due i); [|exact Hl].
  apply lookup_insert_is_Some'. right. apply lookup_insert_is_Some'. now right.
Qed.

Lemma for_batches_only_writes (epoch len : nat) (ds : list (batch * vec)) (i : nat) :
  establishes (only_writes (written_path (outf opt) [epoch]))
    (for_batches E opt real_label fake_label epoch len i ds).
Proof.
  revert i. induction ds as [|d ds IH]; intros i; cbn [for_batches].
  - apply establishes_ret, only_writes_refl.
  - apply establishes_bind; [apply only_writes_trans|apply loop_body_only_writes|].
    intros _. apply IH.
Qed.

Lemma for_batches_keeps_files (epoch len : nat) (ds : list (batch * vec)) (i : nat) :
  establishes keeps_files (for_batches E opt real_label fake_label epoch len i ds).
Proof.
  revert i. induction ds as [|d ds IH]; intros i; cbn [for_batches].
  - apply establishes_ret, keeps_files_refl.
  - apply establishes_bind; [apply keeps_files_trans|apply loop_body_keeps_files|].
    intros _. apply IH.
Qed.

Lemma epoch_body_only_writes (epoch : nat) :
  establishes (only_writes (written_path (outf opt) [epoch]))
    (epoch_body E opt real_label fake_label epoch).
Proof.
  unfold epoch_body.
  apply establishes_bind; [apply only_writes_trans| |].
  { intros s p _. reflexivity. }
  intros ds. apply establishes_bind; [apply only_writes_trans| |].
  { apply for_batches_only_writes. }
  intros _. apply establishes_bind; [apply only_writes_trans| |].
  - intros s. eapply only_writes_insert; [|apply torch_save_files].
    right. right. exists epoch. split; [now left|]. right. now left.
  - intros _ s. eapply only_writes_insert; [|apply torch_save_files].
    right. right. exists epoch. split; [now left|]. right. now right.
Qed.

Lemma epoch_body_keeps_files (epoch : nat) :
  establishes keeps_files (epoch_body E opt real_label fake_label epoch).
Proof.
  unfold epoch_body.
  apply establishes_bind; [apply keeps_files_trans| |].
  { intros s. apply keeps_files_same. reflexivity. }
  intros ds. apply establishes_bind; [apply keeps_files_trans| |].
  { apply for_batches_keeps_files. }
  intros _. apply establishes_bind; [apply keeps_files_trans| |].
  - intros s. eapply keeps_files_insert. apply torch_save_files.
  - intros _ s. eapply keeps_files_insert. apply torch_save_files.
Qed.

Lemma written_path_mono (o : string) (es es' : list nat) (p : string) :
  (forall e, In e es -> In e es') -> written_path o es p -> written_path o es' p.
Proof.
  intros Hsub [->|H]; [now left|]. right. now apply (artifact_path_mono o es es').
Qed.

Lemma for_epochs_only_writes (es : list nat) (W : string -> Prop) :
  (forall p, written_path (outf opt) es p -> W p) ->
  establishes (only_writes W) (for_epochs E opt real_label fake_label es).
Proof.
  induction es as [|e es IH]; intros HW; cbn [for_epochs].
  - apply establishes_ret, only_writes_refl.
  - apply establishes_bind; [apply only_writes_trans| |].
    + intros s. eapply only_writes_mono; [|apply epoch_body_only_writes].
      intros p Hp. apply HW. eapply written_path_mono; [|exact Hp].
      intros x [<-|[]]. now left.
    + intros _. apply IH. intros p Hp. apply HW.
      eapply written_path_mono; [|exact Hp]. intros x Hx. now right.
Qed.

Lemma for_epochs_keeps_files (es : list nat) :
  establishes keeps_files (for_epochs E opt real_label fake_label es).
Proof.
  induction es as [|e es IH]; cbn [for_epochs].
  - apply establishes_ret, keeps_files_refl.
  - apply establishes_bind; [apply keeps_files_trans|apply epoch_body_keeps_files|].
    intros _. exact IH.
Qed.

Lemma setup_files (s : state E) : files (exec (setup E opt) s) = files s.
Proof. reflexivity. Qed.

Lemma torch_save_nets (n : net_id) (path : string) (s : state E) :
  netG (exec (torch_save E n path) s) = netG s /\
  netD (exec (torch_save E n path) s) = netD s.
Proof. split; reflexivity. Qed.

Lemma epoch_body_exec (epoch : nat) (s : state E) :
  exec (epoch_body E opt real_label fake_label epoch) s
  = exec (torch_save E NetD (netD_path (outf opt) epoch))
      (exec (torch_save E NetG (netG_path (outf opt) epoch))
         (exec (for_batches E opt real_label fake_label epoch
                  (length (eval (iter_dataloader E) s)) 0
                  (eval (iter_dataloader E) s))
            (exec (iter_dataloader E) s))).
Proof. unfold epoch_body. rewrite !exec_bind. reflexivity. Qed.

(** The two checkpoints an epoch leaves hold the two networks as the
    epoch leaves them. *)
Lemma epoch_body_checkpoints (epoch : nat) (s : state E) :
  let s' := exec (epoch_body E opt real_label fake_label epoch) s in
  files s' !! netG_path (outf opt) epoch
    = Some (StateDict (parameters (netG s')) (buffers (netG s'))) /\
  files s' !! netD_path (outf opt) epoch
    = Some (StateDict (parameters (netD s')) (buffers (netD s'))).
Proof.
  cbv zeta. rewrite epoch_body_exec.
  set (s2 := exec (for_batches _ _ _ _ _ _ _ _) _).
  rewrite !torch_save_files.
  destruct (torch_save_nets NetD (netD_path (outf opt) epoch)
              (exec (torch_save E NetG (netG_path (outf opt) epoch)) s2)) as (-> & ->).
  destruct (torch_save_nets NetG (netG_path (outf opt) epoch) s2) as (-> & ->).
  split.
  - rewrite lookup_insert_ne, lookup_insert_eq; [reflexivity|].
    intros H. symmetry in H.
    destruct (ArtifactNames.kinds_differ (outf opt) epoch epoch) as (K & _).
    exact (K H).
  - apply lookup_insert_eq.
Qed.

Lemma checkpoint_not_log (e : nat) :
  netG_path (outf opt) e <> stdout_log_path (outf opt) /\
  netD_path (outf opt) e <> stdout_log_path (outf opt).
Proof.
  split; intros H; apply (ArtifactNames.log_not_artifact (outf opt) [e]);
    rewrite <- H; right; exists e; (split; [now left|]); right; [now left|now right].
Qed.

Lemma checkpoint_not_artifact_of_others (e : nat) (es : list nat) :
  ~ In e es ->
  ~ written_path (outf opt) es (netG_path (outf opt) e) /\
  ~ written_path (outf opt) es (netD_path (outf opt) e).
Proof.
  intros Hin.
  split; (intros [H|[H|(e' & He' & [H|[H|H]])]];
          [now apply (checkpoint_not_log e) in H|..]).
  - destruct (ArtifactNames.kinds_differ (outf opt) e e) as (_ & K & _). exact (K H).
  - destruct (ArtifactNames.kinds_differ (outf opt) e e') as (_ & _ & K & _).
    exact (K H).
  - apply ArtifactNames.netG_path_inj in H. congruence.
  - destruct (ArtifactNames.kinds_differ (outf opt) e e') as (K & _). exact (K H).
  - destruct (ArtifactNames.kinds_differ (outf opt) e e) as (_ & _ & _ & K & _).
    exact (K H).
  - destruct (ArtifactNames.kinds_differ (outf opt) e e') as (_ & _ & _ & _ & K).
    exact (K H).
  - destruct (ArtifactNames.kinds_differ (outf opt) e' e) as (K & _).
    symmetry in H. exact (K H).
  - apply ArtifactNames.netD_path_inj in H. congruence.
Qed.

(** X3. The checkpoints of an epoch are kept: after epoch [e] and then any
    epochs [es] that do not repeat [e], the files [netG_epoch_<e>.pth] and
    [netD_epoch_<e>.pth] still hold the parameters and buffers the two
    networks had at the end of epoch [e]. *)
Theorem checkpoints_kept (e : nat) (es : list nat) (s : state E) :
  ~ In e es ->
  let s_e := exec (epoch_body E opt real_label fake_label e) s in
  let s_end := exec (for_epochs E opt real_label fake_label (e :: es)) s in
  files s_end !! netG_path (outf opt) e
    = Some (StateDict (parameters (netG s_e)) (buffers (netG s_e))) /\
  files s_end !! netD_path (outf opt) e
    = Some (StateDict (parameters (netD s_e)) (buffers (netD s_e))).
Proof.
  intros Hin. cbv zeta. cbn [for_epochs]. rewrite exec_bind.
  destruct (epoch_body_checkpoints e s) as (HG & HD). cbv zeta in HG, HD.
  destruct (checkpoint_not_artifact_of_others e es Hin) as (HnG & HnD).
  pose proof (for_epochs_only_writes es (written_path (outf opt) es)
                (fun p H => H)
                (exec (epoch_body E opt real_label fake_label e) s)) as Hw.
  split.
  - rewrite (Hw _ HnG). exact HG.
  - rewrite (Hw _ HnD). exact HD.
Qed.

(** X5. A run deletes no file: every name that has a file before the run
    has one after it. *)
Theorem run_keeps_files (s : state E) :
  dom (files s) ⊆ dom (files (exec (script E opt real_label fake_label) s)).
Proof.
  intros p Hp. apply elem_of_dom. apply elem_of_dom in Hp.
  unfold script, training_loop. rewrite exec_bind.
  apply for_epochs_keeps_files. now rewrite setup_files.
Qed.

(** X6. An epoch whose data loader yields at least one batch leaves a
    snapshot: batch 0 is always due, so after the epoch [real_samples.png]
    and the fake-samples file of the epoch exist. *)
Theorem first_batch_snapshot (e : nat) (s : state E) :
  fst (dataloader E (rng s)) <> [] ->
  let s' := exec (epoch_body E opt real_label fake_label e) s in
  is_Some (files s' !! real_samples_path (outf opt)) /\
  is_Some (files s' !! fake_samples_path (outf opt) e).
Proof.
  intros Hne. cbv zeta. rewrite epoch_body_exec.
  change (eval (iter_dataloader E) s) with (fst (dataloader E (rng s))).
  destruct (fst (dataloader E (rng s))) as [|d ds]; [congruence|].
  cbn [for_batches]. rewrite exec_bind.
  set (s0 := exec (iter_dataloader E) s).
  destruct (loop_body_files e (length (d :: ds)) 0 d s0) as (imgs & logged & Hf).
  change (snapshot_due 0) with true in Hf. cbv iota in Hf.
  assert (Hk : forall s1 : state E,
             keeps_files s1
               (exec (torch_save E NetD (netD_path (outf opt) e))
                  (exec (torch_save E NetG (netG_path (outf opt) e))
                     (exec (for_batches E opt real_label fake_label e
                              (length (d :: ds)) 1 ds) s1)))).
  { intros s1. eapply keeps_files_trans; [apply for_batches_keeps_files|].
    eapply keeps_files_trans; eapply keeps_files_insert; apply torch_save_files. }
  split; apply Hk; rewrite Hf.
  - rewrite lookup_insert_ne, lookup_insert_eq; [eexists; reflexivity|].
    intros H. symmetry in H. revert H. apply PathFacts.real_fake_paths_differ.
  - rewrite lookup_insert_eq. eexists; reflexivity.
Qed.
End RunFiles.

(** ** The log and the events of a run *)

Section RunTrace.

Variable E : torch_env.
Variable opt : options.
Variables real_label fake_label : R.

Lemma loop_body_exec_line (epoch len i : nat) (data : batch * vec) (s : state E) :
  exists (fk : tensor batch) (label : vec) (line : log_line),
    exec (loop_body E opt real_label fake_label epoch len i data) s
    = exec (snapshot E opt epoch i (fst data))
        (exec (logging_info E opt line)
           (exec (update_G_network E opt real_label fk label)
              (exec (update_D_network E opt real_label fake_label data) s))) /\
    log_position line = (epoch, niter opt, i, len).
Proof.
  do 3 eexists. split.
  - unfold loop_body.
    rewrite exec_bind. cbv beta zeta.
    rewrite exec_bind. rewrite exec_bind. rewrite exec_bind.
    rewrite exec_ret. reflexivity.
  - reflexivity.
Qed.

Lemma snapshot_log_exec (epoch i : nat) (real_cpu : batch) (s : state E) :
  log (exec (snapshot E opt epoch i real_cpu) s) = log s.
Proof. unfold exec, snapshot. destruct (snapshot_due i); reflexivity. Qed.

Lemma logging_info_log (l : log_line) (s : state E) :
  log (exec (logging_info E opt l) s) = log s ++ [l].
Proof. reflexivity. Qed.

Lemma update_G_network_log (fk : tensor batch) (label : vec) (s : state E) :
  log (exec (update_G_network E opt real_label fk label) s) = log s.
Proof. reflexivity. Qed.

Lemma update_D_network_log (data : batch * vec) (s : state E) :
  log (exec (update_D_network E opt real_label fake_label data) s) = log s.
Proof. unfold exec, update_D_network, accumulate_D. cbn. reflexivity. Qed.

Lemma loop_body_log (epoch len i : nat) (data : batch * vec) (s : state E) :
  exists line : log_line,
    log (exec (loop_body E opt real_label fake_label epoch len i data) s)
    = log s ++ [line] /\
    log_position line = (epoch, niter opt, i, len).
Proof.
  destruct (loop_body_exec_line epoch len i data s) as (fk & label & line & -> & Hp).
  exists line. split; [|exact Hp].
  rewrite snapshot_log_exec, logging_info_log, update_G_network_log.
  now rewrite update_D_network_log.
Qed.

Lemma for_batches_log (epoch len : nat) (ds : list (batch * vec)) (i : nat)
    (s : state E) :
  exists lines : list log_line,
    log (exec (for_batches E opt real_label fake_label epoch len i ds) s)
    = log s ++ lines /\
    map log_position lines
    = map (fun k => (epoch, niter opt, k, len)) (seq i (length ds)).
Proof.
  revert i s. induction ds as [|d ds IH]; intros i s; cbn [for_batches].
  - exists []. split; [now rewrite app_nil_r|reflexivity].
  - rewrite exec_bind.
    destruct (loop_body_log epoch len i d s) as (line & Hl & Hp).
    destruct (IH (S i) (exec (loop_body E opt real_label fake_label epoch len i d) s))
      as (lines & Hls & Hps).
    exists (line :: lines). split.
    + rewrite Hls, Hl, <- app_assoc. reflexivity.
    + cbn [length seq map]. now rewrite Hp, Hps.
Qed.

(** X7. An epoch logs one line per batch, in order: with [n] the number
    of batches the data loader yields, the lines the epoch adds carry the
    epoch number, [niter], the batch indices [0, 1, ..., n - 1] and [n];
    nothing else is logged, and the checkpoints add no line. *)
Theorem epoch_log (e : nat) (s : state E) :
  let n := length (fst (dataloader E (rng s))) in
  exists lines : list log_line,
    log (exec (epoch_body E opt real_label fake_label e) s) = log s ++ lines /\
    map log_position lines = map (fun k => (e, niter opt, k, n)) (seq 0 n).
Proof.
  cbv zeta. rewrite epoch_body_exec.
  change (eval (iter_dataloader E) s) with (fst (dataloader E (rng s))).
  destruct (for_batches_log e (length (fst (dataloader E (rng s))))
              (fst (dataloader E (rng s))) 0 (exec (iter_dataloader E) s))
    as (lines & Hl & Hp).
  exists lines. split; [|exact Hp].
  exact Hl.
Qed.

Lemma loop_body_counts (epoch len i : nat) (data : batch * vec) :
  let body := loop_body E opt real_label fake_label epoch len i data in
  let due := if snapshot_due i then 1 else 0 in
  counts (is_step NetD) 1 body /\ counts (is_step NetG) 1 body /\
  counts is_randn 1 body /\ counts is_backward 3 body /\
  counts (is_forward NetD) 3 body /\
  counts is_save (2 * due) body /\ counts (is_forward NetG) (1 + due) body.
Proof.
  cbv zeta.
  repeat split; intros s;
    destruct (loop_body_emits E opt real_label fake_label epoch len i data s)
      as [m Hm];
    (eexists; split; [exact Hm|]);
    rewrite List.filter_app; unfold snapshot_events;
    destruct (snapshot_due i); reflexivity.
Qed.

Lemma for_batches_counts (f : event -> bool) (c : nat -> nat) (epoch len : nat) :
  (forall i d, counts f (c i) (loop_body E opt real_label fake_label epoch len i d)) ->
  forall (ds : list (batch * vec)) (i : nat),
    counts f (list_sum (map c (seq i (length ds))))
      (for_batches E opt real_label fake_label epoch len i ds).
Proof.
  intros Hb ds. induction ds as [|d ds IH]; intros i; cbn [for_batches].
  - apply counts_ret.
  - cbn [length seq map list_sum].
    apply counts_bind; [apply Hb|]. intros _. apply IH.
Qed.

Lemma epoch_body_counts (f : event -> bool) (c : nat -> nat) (e : nat) (s : state E) :
  (forall len i d, counts f (c i) (loop_body E opt real_label fake_label e len i d)) ->
  length (List.filter f (new_events (epoch_body E opt real_label fake_label e) s))
  = list_sum (map c (seq 0 (length (fst (dataloader E (rng s)))))).
Proof.
  intros Hb.
  assert (H0 : counts f 0 (iter_dataloader E)) by (apply counts_silent; reflexivity).
  destruct (H0 s) as (ev0 & Hev0 & Hc0).
  destruct (for_batches_counts f c e (length (eval (iter_dataloader E) s)) (Hb _)
              (eval (iter_dataloader E) s) 0 (exec (iter_dataloader E) s))
    as (ev1 & Hev1 & Hc1).
  assert (Hev : emits (epoch_body E opt real_label fake_label e) s
                  (ev0 ++ ev1 ++ [])).
  { unfold epoch_body.
    apply emits_bind; [exact Hev0|]. apply emits_bind; [exact Hev1|].
    unfold emits. cbn. now rewrite app_nil_r. }
  rewrite (emits_new_events _ _ _ _ Hev).
  rewrite !List.filter_app, !length_app, Hc0, Hc1.
  change (eval (iter_dataloader E) s) with (fst (dataloader E (rng s))).
  cbn [List.filter length]. lia.
Qed.

Lemma list_sum_const (c : nat) (l : list nat) :
  list_sum (map (fun _ => c) l) = c * length l.
Proof.
  induction l as [|x l IH]; simpl; [nia|]. rewrite IH. nia.
Qed.

(** Rounding up to hundreds, one step at a time. *)
Lemma ceil_hundred_succ (n : nat) :
  (S n + 99) / 100 = (n + 99) / 100 + (if Nat.eqb (n mod 100) 0 then 1 else 0).
Proof.
  pose proof (Nat.div_mod_eq n 100) as Hn.
  pose proof (Nat.mod_upper_bound n 100) as Hr.
  set (q := n / 100) in *. set (r := n mod 100) in *.
  assert (Hr' : r < 100) by (apply Hr; lia). clear Hr.
  replace (S n + 99) with (r + (q + 1) * 100) by lia.
  rewrite Nat.div_add by lia. rewrite (Nat.div_small r 100) by lia.
  destruct (Nat.eqb_spec r 0) as [H0|H0].
  - replace (n + 99) with (99 + q * 100) by lia.
    rewrite Nat.div_add by lia. rewrite (Nat.div_small 99 100) by lia. lia.
  - replace (n + 99) with ((r - 1) + (q + 1) * 100) by lia.
    rewrite Nat.div_add by lia. rewrite (Nat.div_small (r - 1) 100) by lia. lia.
Qed.

(** The batch indices below [n] at which a snapshot is due. *)
Lemma due_count (n : nat) :
  list_sum (map (fun k => if snapshot_due k then 1 else 0) (seq 0 n))
  = (n + 99) / 100.
Proof.
  induction n as [|n IH]; [reflexivity|].
  rewrite seq_S, map_app, list_sum_app, IH, ceil_hundred_succ.
  unfold snapshot_due. simpl. lia.
Qed.

(** X8. The work of an epoch, counted on its trace: with [n] the number
    of batches the data loader yields, the epoch takes [n] discriminator
    steps and [n] generator steps, draws noise [n] times, runs [3 n]
    backward passes and [3 n] discriminator forward passes, saves
    [2 * ceil (n / 100)] images, and runs the generator [n] times on
    noise and [ceil (n / 100)] times on the fixed noise. *)
Theorem epoch_counts (e : nat) (s : state E) :
  let n := length (fst (dataloader E (rng s))) in
  let evs := new_events (epoch_body E opt real_label fake_label e) s in
  length (List.filter (is_step NetD) evs) = n /\
  length (List.filter (is_step NetG) evs) = n /\
  length (List.filter is_randn evs) = n /\
  length (List.filter is_backward evs) = 3 * n /\
  length (List.filter (is_forward NetD) evs) = 3 * n /\
  length (List.filter is_save evs) = 2 * ((n + 99) / 100) /\
  length (List.filter (is_forward NetG) evs) = n + (n + 99) / 100.
Proof.
  cbv zeta.
  assert (Hsum : forall (a : nat) (l : list nat),
            list_sum (map (fun k => a + (if snapshot_due k then 1 else 0)) l)
            = a * length l
              + list_sum (map (fun k => if snapshot_due k then 1 else 0) l)).
  { intros a l. unfold list_sum.
    induction l as [|x l IH]; cbn [map fold_right length]; [nia|]. rewrite IH. nia. }
  assert (Hsum2 : forall l : list nat,
            list_sum (map (fun k => 2 * (if snapshot_due k then 1 else 0)) l)
            = 2 * list_sum (map (fun k => if snapshot_due k then 1 else 0) l)).
  { intros l. unfold list_sum.
    induction l as [|x l IH]; cbn [map fold_right]; [lia|]. rewrite IH. lia. }
  split; [|split; [|split; [|split; [|split; [|split]]]]].
  - rewrite (epoch_body_counts _ (fun _ => 1)), list_sum_const, length_seq; [lia|].
    intros len i d. apply (loop_body_counts e len i d).
  - rewrite (epoch_body_counts _ (fun _ => 1)), list_sum_const, length_seq; [lia|].
    intros len i d. apply (loop_body_counts e len i d).
  - rewrite (epoch_body_counts _ (fun _ => 1)), list_sum_const, length_seq; [lia|].
    intros len i d. apply (loop_body_counts e len i d).
  - rewrite (epoch_body_counts _ (fun _ => 3)), list_sum_const, length_seq; [lia|].
    intros len i d. apply (loop_body_counts e len i d).
  - rewrite (epoch_body_counts _ (fun _ => 3)), list_sum_const, length_seq; [lia|].
    intros len i d. apply (loop_body_counts e len i d).
  - rewrite (epoch_body_counts _ (fun k => 2 * (if snapshot_due k then 1 else 0))).
    + now rewrite Hsum2, due_count.
    + intros len i d. apply (loop_body_counts e len i d).
  - rewrite (epoch_body_counts _ (fun k => 1 + (if snapshot_due k then 1 else 0))).
    + rewrite Hsum, due_count, length_seq. lia.
    + intros len i d. apply (loop_body_counts e len i d).
Qed.

End RunTrace.

(** ** The log file of a run *)

Section RunLogFile.

Variable E : torch_env.
Variable opt : options.
Variables real_label fake_label : R.














End RunLogFile.

(** ** The sign of the reported loss *)

Section RunEdges.

Variable E : torch_env.
Variable opt : options.

(** X10. The discriminator loss a batch reports is never negative, in
    either variant (labels 1 and 0); the two terms it sums are not
    negative either. *)
Theorem discriminator_loss_nonneg (epoch len i : nat) (data : batch * vec)
    (s : state E) :
  let L := eval (loop_body E opt 1 0 epoch len i data) s in
  (0 <= value (errD_real (loc_real L)))%R /\
  (0 <= value (errD_fake (loc_fake L)))%R /\
  (0 <= value (errD L))%R.
Proof.
  cbv zeta.
  destruct (loop_body_locals E opt 1 0 epoch len i data s) as (Hr & Hf & _).
  destruct (labels_of_batch E opt 1 0 epoch len i data s) as (Lr & _).
  cbv zeta in Hr, Hf, Lr.
  set (L := eval (loop_body E opt 1 0 epoch len i data) s) in *.
  assert (H1 : (0 <= value (errD_real (loc_real L)))%R).
  { rewrite Hr, errD_real_value. destruct (sagan opt).
    - apply MetricFacts.hinge_nonneg.
    - apply MetricFacts.criterion_value_nonneg. lra. }
  assert (H2 : (0 <= value (errD_fake (loc_fake L)))%R).
  { pose proof (errD_fake_value E opt 0 (length (fst data))
                  (label_real (loc_real L))
                  (exec (train_with_real E opt 1 data) s)) as H.
    cbv zeta in H. rewrite <- Hf in H. rewrite H. destruct (sagan opt).
    - apply MetricFacts.hinge_nonneg.
    - rewrite Lr, fill_full. apply MetricFacts.criterion_value_nonneg. lra. }
  split; [exact H1|]. split; [exact H2|].
  assert (Hsum : value (errD L)
                 = (value (errD_real (loc_real L)) + value (errD_fake (loc_fake L)))%R)
    by reflexivity.
  rewrite Hsum. lra.
Qed.

End RunEdges.

(** ** Weight initialisation *)

Module FindFacts.

Lemma find_absent (sub s : string) :
  (forall k, ~ occurs_at sub s k) -> Z.eqb (str_find s sub) (-1) = true.
Proof.
  intros H. unfold str_find.
  destruct (String.index 0 sub s) as [m|] eqn:Hi; [|reflexivity].
  exfalso. apply (H m). exact (String.index_correct1 _ _ _ _ Hi).
Qed.

Lemma find_present (sub s : string) (k : nat) :
  sub <> ""%string -> occurs_at sub s k -> Z.eqb (str_find s sub) (-1) = false.
Proof.
  intros Hne Hk. unfold str_find.
  destruct (String.index 0 sub s) as [m|] eqn:Hi.
  - apply Z.eqb_neq. lia.
  - exfalso. apply (String.index_correct3 0 k _ _ Hi Hne); [lia|exact Hk].
Qed.

(** The index [find] returns is the lowest one at which [sub] occurs. *)
Lemma find_lowest (sub s : string) (m : nat) :
  str_find s sub = Z.of_nat m ->
  occurs_at sub s m /\ forall k, k < m -> ~ occurs_at sub s k.
Proof.
  unfold str_find.
  destruct (String.index 0 sub s) as [m'|] eqn:Hi; [|lia].
  intros H. assert (m' = m) by lia. subst m'. split.
  - exact (String.index_correct1 _ _ _ _ Hi).
  - intros k Hk. apply (String.index_correct2 _ _ _ _ Hi); lia.
Qed.

End FindFacts.

Section WeightsInitFacts.

Variable G : Type.
Variable normal_sample : G -> R -> R -> nat -> nat -> R.
Variable normal_state : G -> R -> R -> nat -> G.

Lemma zeros_repeat (b : vec) : zeros_ b = repeat 0%R (length b).
Proof.
  unfold zeros_. induction b as [|x b IH]; cbn; [reflexivity|]. now rewrite IH.
Qed.

Lemma weights_init_skip (m : nn_module) (g : G) :
  plain_class (class_name m) ->
  weights_init G normal_sample normal_state m g = Some (m, g).
Proof.
  intros [HC HB]. unfold weights_init. cbv zeta.
  rewrite (FindFacts.find_absent _ _ HC), (FindFacts.find_absent _ _ HB).
  reflexivity.
Qed.

(** X12. [weights_init] leaves alone every module whose class name
    contains neither [Conv] nor [BatchNorm]: the module is unchanged, no
    random number is drawn, and nothing is raised even when the module has
    no weight. *)
Theorem weights_init_other (m : nn_module) (g : G) :
  (forall k, ~ occurs_at "Conv" (class_name m) k) ->
  (forall k, ~ occurs_at "BatchNorm" (class_name m) k) ->
  weights_init G normal_sample normal_state m g = Some (m, g).
Proof.
  intros HC HB. apply weights_init_skip. split; assumption.
Qed.

(** X13. A module whose class name contains [Conv] anywhere is
    initialised as a convolution, whatever else the name contains (also
    [BatchNorm]): its weight is redrawn from N(0, 0.02) with the same
    number of entries, its bias and its name are untouched; the call
    raises exactly when the module has no weight. *)
Theorem weights_init_conv (m : nn_module) (g : G) (k : nat) :
  occurs_at "Conv" (class_name m) k ->
  (weight m = None <-> weights_init G normal_sample normal_state m g = None) /\
  (forall w, weight m = Some w ->
     exists w',
       weights_init G normal_sample normal_state m g
       = Some ({| class_name := class_name m; weight := Some w'; bias := bias m |},
               normal_state g 0 (2 / 100) (length w)) /\
       length w' = length w /\
       w' = map (normal_sample g 0 (2 / 100) (length w)) (seq 0 (length w))).
Proof.
  intros Hk. unfold weights_init. cbv zeta.
  rewrite (FindFacts.find_present "Conv" _ k); [|discriminate|exact Hk].
  cbn [negb]. destruct (weight m) as [w|].
  - split; [split; discriminate|].
    intros w0 [= <-]. eexists. split; [reflexivity|].
    split; [|reflexivity]. cbn. now rewrite length_map, length_seq.
  - split; [split; reflexivity|]. discriminate.
Qed.

(** X14. A module whose class name contains [BatchNorm] and not [Conv]
    gets its weight redrawn from N(1, 0.02) and its bias set to zeros,
    both with the number of entries they had; the call raises exactly when
    the weight or the bias is missing. *)
Theorem weights_init_batchnorm (m : nn_module) (g : G) (k : nat) :
  (forall j, ~ occurs_at "Conv" (class_name m) j) ->
  occurs_at "BatchNorm" (class_name m) k ->
  (weight m = None \/ bias m = None <->
   weights_init G normal_sample normal_state m g = None) /\
  (forall w b, weight m = Some w -> bias m = Some b ->
     weights_init G normal_sample normal_state m g
     = Some ({| class_name := class_name m;
                weight := Some (map (normal_sample g 1 (2 / 100) (length w))
                                    (seq 0 (length w)));
                bias := Some (repeat 0%R (length b)) |},
             normal_state g 1 (2 / 100) (length w))).
Proof.
  intros HC Hk. unfold weights_init. cbv zeta.
  rewrite (FindFacts.find_absent _ _ HC).
  rewrite (FindFacts.find_present "BatchNorm" _ k); [|discriminate|exact Hk].
  cbn [negb]. destruct (weight m) as [w|], (bias m) as [b|].
  - split; [split; [intros [H|H]; discriminate|discriminate]|].
    intros w0 b0 [= <-] [= <-]. rewrite zeros_repeat. reflexivity.
  - split; [split; [reflexivity|now right]|]. discriminate.
  - split; [split; [reflexivity|now left]|]. discriminate.
  - split; [split; [reflexivity|now left]|]. discriminate.
Qed.

End WeightsInitFacts.

Section ApplyFacts.

Variable G : Type.
Variable normal_sample : G -> R -> R -> nat -> nat -> R.
Variable normal_state : G -> R -> R -> nat -> G.

(** Induction on a network, with the property known of every child. *)
Lemma nn_tree_induction (P : nn_tree -> Prop) :
  (forall m cs, List.Forall P cs -> P (Node m cs)) -> forall t, P t.
Proof.
  intros H. fix IH 1. intros [m cs]. apply H.
  induction cs as [|c cs IHcs]; constructor; [apply IH|exact IHcs].
Qed.

Lemma weights_init_class_name (m m' : nn_module) (g g' : G) :
  weights_init G normal_sample normal_state m g = Some (m', g') ->
  class_name m' = class_name m.
Proof.
  unfold weights_init. cbv zeta.
  destruct (negb _).
  - destruct (weight m); [|discriminate]. now intros [= <- _].
  - destruct (negb _); [|now intros [= <- _]].
    destruct (weight m); [|discriminate].
    destruct (bias m); [|discriminate]. now intros [= <- _].
Qed.

(** X15. [net.apply(weights_init)] on a network none of whose modules is
    a [Conv] or [BatchNorm] class returns the network as it is and draws
    no random number. *)
Theorem apply_weights_init_plain (t : nn_tree) (g : G) :
  List.Forall plain_class (class_names t) ->
  module_apply G (weights_init G normal_sample normal_state) t g = Some (t, g).
Proof.
  revert g. induction t as [m cs IH] using nn_tree_induction.
  intros g H. cbn [class_names] in H.
  apply List.Forall_app in H as [Hcs Hm].
  assert (Hch : forall g0,
             apply_children G
               (module_apply G (weights_init G normal_sample normal_state)) cs g0
             = Some (cs, g0)).
  { clear Hm. induction cs as [|c cs IHcs]; intros g0; [reflexivity|].
    cbn [flat_map] in Hcs. apply List.Forall_app in Hcs as [Hc Hcs].
    inversion IH as [|c0 cs0 Hc0 Hcs0]; subst.
    cbn [apply_children]. rewrite (Hc0 g0 Hc), (IHcs Hcs0 Hcs). reflexivity. }
  cbn [module_apply]. rewrite Hch.
  inversion Hm as [|c0 l0 Hplain _]; subst.
  now rewrite (weights_init_skip G normal_sample normal_state m g Hplain).
Qed.

(** X16. When [net.apply(weights_init)] returns, the network it returns
    has the modules of the one it was given, by class name and in the same
    order: initialisation renames, adds and drops nothing. *)
Theorem apply_weights_init_class_names (t t' : nn_tree) (g g' : G) :
  module_apply G (weights_init G normal_sample normal_state) t g = Some (t', g') ->
  class_names t' = class_names t.
Proof.
  revert t' g g'. induction t as [m cs IH] using nn_tree_induction.
  intros t' g g' H. cbn [module_apply] in H.
  assert (Hch : forall cs' g0 g1,
             apply_children G
               (module_apply G (weights_init G normal_sample normal_state)) cs g0
             = Some (cs', g1) ->
             flat_map class_names cs' = flat_map class_names cs).
  { clear H. induction cs as [|c cs IHcs]; intros cs' g0 g1 H.
    - cbn in H. now injection H as <- _.
    - inversion IH as [|c0 cs0 Hc0 Hcs0]; subst.
      cbn [apply_children] in H.
      destruct (module_apply G _ c g0) as [[c' gc]|] eqn:Hc; [|discriminate].
      destruct (apply_children G _ cs gc) as [[cs'' gcs]|] eqn:Hcs; [|discriminate].
      injection H as <- _. cbn [flat_map].
      now rewrite (Hc0 _ _ _ Hc), (IHcs Hcs0 _ _ _ Hcs). }
  destruct (apply_children G _ cs g) as [[cs' g0]|] eqn:Hcs; [|discriminate].
  destruct (weights_init G normal_sample normal_state m g0) as [[m' g1]|] eqn:Hm;
    [|discriminate].
  injection H as <- _. cbn [class_names].
  now rewrite (Hch _ _ _ Hcs), (weights_init_class_name _ _ _ _ Hm).
Qed.

End ApplyFacts.

(** ** The further properties on the small environments *)

Ltac no_occurrence :=
  let k := fresh "k" in
  intros k; unfold occurs_at;
  do 16 (destruct k as [|k]; [discriminate|]); discriminate.

Lemma checkpoints_kept_witness :
  ~ In 0 [1] /\
  files (exec (for_epochs Toy.env (Toy.opts true) 1 0 [0; 1]) Toy.s0)
    !! netG_path "out" 0
  = Some (StateDict
            (parameters (netG (exec (epoch_body Toy.env (Toy.opts true) 1 0 0) Toy.s0)))
            (buffers (netG (exec (epoch_body Toy.env (Toy.opts true) 1 0 0) Toy.s0)))).
Proof.
  assert (H : ~ In 0 [1]) by (intros [H|[]]; discriminate).
  split; [exact H|].
  apply (checkpoints_kept Toy.env (Toy.opts true) 1 0 0 [1] Toy.s0 H).
Defined.

Lemma first_batch_snapshot_witness :
  fst (dataloader Toy.env (rng Toy.s0)) <> [] /\
  is_Some (files (exec (epoch_body Toy.env (Toy.opts false) 1 0 3) Toy.s0)
             !! fake_samples_path "out" 3).
Proof.
  assert (H : fst (dataloader Toy.env (rng Toy.s0)) <> []) by discriminate.
  split; [exact H|].
  apply (first_batch_snapshot Toy.env (Toy.opts false) 1 0 3 Toy.s0 H).
Defined.

Lemma weights_init_other_witness :
  (forall k, ~ occurs_at "Conv" "ReLU" k) /\
  (forall k, ~ occurs_at "BatchNorm" "ReLU" k) /\
  weights_init nat ToyEdge.normal_sample ToyEdge.normal_state
    (ToyEdge.layer "ReLU" None None) 5
  = Some (ToyEdge.layer "ReLU" None None, 5).
Proof.
  assert (HC : forall k, ~ occurs_at "Conv" "ReLU" k) by no_occurrence.
  assert (HB : forall k, ~ occurs_at "BatchNorm" "ReLU" k) by no_occurrence.
  split; [exact HC|]. split; [exact HB|].
  exact (weights_init_other nat ToyEdge.normal_sample ToyEdge.normal_state
           (ToyEdge.layer "ReLU" None None) 5 HC HB).
Defined.

Lemma weights_init_conv_witness :
  occurs_at "Conv" "BatchNormConv" 9 /\
  (weight (ToyEdge.layer "BatchNormConv" (Some [1; 2]%R) (Some [3]%R)) = None <->
   weights_init nat ToyEdge.normal_sample ToyEdge.normal_state
     (ToyEdge.layer "BatchNormConv" (Some [1; 2]%R) (Some [3]%R)) 5 = None).
Proof.
  split; [reflexivity|].
  apply (weights_init_conv nat ToyEdge.normal_sample ToyEdge.normal_state
           (ToyEdge.layer "BatchNormConv" (Some [1; 2]%R) (Some [3]%R)) 5 9).
  reflexivity.
Defined.

Lemma weights_init_batchnorm_witness :
  (forall j, ~ occurs_at "Conv" "BatchNorm2d" j) /\
  occurs_at "BatchNorm" "BatchNorm2d" 0 /\
  weights_init nat ToyEdge.normal_sample ToyEdge.normal_state
    (ToyEdge.layer "BatchNorm2d" (Some [5; 6]%R) (Some [7; 8; 9]%R)) 0
  = Some (ToyEdge.layer "BatchNorm2d" (Some [1; 1]%R) (Some [0; 0; 0]%R), 2).
Proof.
  assert (HC : forall j, ~ occurs_at "Conv" "BatchNorm2d" j) by no_occurrence.
  split; [exact HC|]. split; [reflexivity|].
  exact (proj2 (weights_init_batchnorm nat ToyEdge.normal_sample ToyEdge.normal_state
                  (ToyEdge.layer "BatchNorm2d" (Some [5; 6]%R) (Some [7; 8; 9]%R))
                  0 0 HC eq_refl)
           [5; 6]%R [7; 8; 9]%R eq_refl eq_refl).
Defined.

Lemma apply_weights_init_plain_witness :
  List.Forall plain_class
    (class_names (Node (ToyEdge.layer "Net" None None)
                       [Node (ToyEdge.layer "ReLU" None None) [];
                        Node (ToyEdge.layer "Tanh" None None) []])) /\
  module_apply nat (weights_init nat ToyEdge.normal_sample ToyEdge.normal_state)
    (Node (ToyEdge.layer "Net" None None)
          [Node (ToyEdge.layer "ReLU" None None) [];
           Node (ToyEdge.layer "Tanh" None None) []]) 0
  = Some (Node (ToyEdge.layer "Net" None None)
               [Node (ToyEdge.layer "ReLU" None None) [];
                Node (ToyEdge.layer "Tanh" None None) []], 0).
Proof.
  assert (H : List.Forall plain_class
                (class_names (Node (ToyEdge.layer "Net" None None)
                                   [Node (ToyEdge.layer "ReLU" None None) [];
                                    Node (ToyEdge.layer "Tanh" None None) []]))).
  { cbn. repeat constructor; no_occurrence. }
  split; [exact H|].
  exact (apply_weights_init_plain nat ToyEdge.normal_sample ToyEdge.normal_state _ 0 H).
Defined.

Lemma apply_weights_init_class_names_witness :
  module_apply nat (weights_init nat ToyEdge.normal_sample ToyEdge.normal_state)
    (Node (ToyEdge.layer "Sequential" None None)
          [Node (ToyEdge.layer "Conv2d" (Some [4]%R) None) []]) 0
  = Some (Node (ToyEdge.layer "Sequential" None None)
               [Node (ToyEdge.layer "Conv2d" (Some [0]%R) None) []], 1) /\
  class_names (Node (ToyEdge.layer "Sequential" None None)
                    [Node (ToyEdge.layer "Conv2d" (Some [0]%R) None) []])
  = class_names (Node (ToyEdge.layer "Sequential" None None)
                      [Node (ToyEdge.layer "Conv2d" (Some [4]%R) None) []]).
Proof.
  assert (H : module_apply nat
                (weights_init nat ToyEdge.normal_sample ToyEdge.normal_state)
                (Node (ToyEdge.layer "Sequential" None None)
                      [Node (ToyEdge.layer "Conv2d" (Some [4]%R) None) []]) 0
              = Some (Node (ToyEdge.layer "Sequential" None None)
                           [Node (ToyEdge.layer "Conv2d" (Some [0]%R) None) []], 1))
    by reflexivity.
  split; [exact H|].
  exact (apply_weights_init_class_names nat ToyEdge.normal_sample
           ToyEdge.normal_state _ _ _ _ H).
Defined.
